(** * homely.py: token lifecycle and location-data cache of the Homely client

    A shallow embedding of [custom_components/homely/homely.py].  The client
    object is a record, every method is a function in a state-and-exception
    monad over the client and the outside world (wall clock and HTTP
    session), and the theorems below settle the properties of the token
    manager and of the throttled location cache. *)

From Stdlib Require Import ZArith List Ascii String Bool Lia SpecFloat.
Import ListNotations.

Set Warnings "-register-all".

Open Scope string_scope.
Open Scope list_scope.
Open Scope Z_scope.

(** ** Python values *)

(** What [json.loads] can produce and what the attributes of the client hold.
    [VNone] is Python's [None] (JSON [null]).  A JSON number without fraction
    or exponent is an [int]; any other number, and the literals [NaN] and
    [Infinity] that [json.loads] accepts, is a [float]: [S754_finite s m e]
    is the number [m * 2^e], negated when [s] is set. *)
Inductive value : Type :=
| VNone
| VBool (b : bool)
| VInt (n : Z)
| VFloat (f : spec_float)
| VStr (s : string)
| VList (l : list value)
| VDict (d : list (string * value)).

(** [x is None] *)
Definition is_None (v : value) : bool :=
  match v with VNone => true | _ => false end.

(** ** Exceptions *)

(** The exception classes of the module, followed by the built-in ones that
    its statements can raise. *)
Inductive exn : Type :=
| ResponseError (status_code : Z)
| TokenExpiredError (msg : string)
| InvalidArgument (msg : string)
| RequestFailed (msg : string)
| LoginError (msg : string)
| NoAuth (msg : string)
| KeyError (key : string)
| TypeError
| ValueError
| OverflowError
| AttributeError
| UnboundLocalError (name : string)
| JSONDecodeError.

Inductive outcome (A : Type) : Type :=
| Returned (a : A)
| Raised (e : exn).
Arguments Returned {A} a.
Arguments Raised {A} e.

(** ** The outside world: wall clock and HTTP session *)

(** The [data] argument of [_request]: a dict of form fields, or the dict
    [{"Authorization": f"Bearer {token}"}]. *)
Inductive req_data : Type :=
| DictOf (kv : list (string * value))
| Bearer (token : value).

Record request : Type := mkRequest {
  url : string;
  data : req_data;
  req_type : string
}.

(** What the session answers: a response with its status and its body, the
    body as [json.loads] reads it ([None] for a body that is not JSON), or
    one of the two failures that [_request] catches.  A body that cannot be
    read, or that nests deeper than the parser goes, is not among the answers
    represented. *)
Inductive reply : Type :=
| Response (status : Z) (text : option value)
| ClientError
| TimeoutError.

Record response : Type := mkResponse {
  status : Z;
  text : option value
}.

(** [clock k] is what the [k]-th call of [datetime.now()] returns, in
    microseconds since 0001-01-01T00:00:00; [server k] is the answer to the
    [k]-th request handed to the session.  [ticks] counts the clock readings
    made so far and [sent] logs the requests made so far, oldest first. *)
Record World : Type := mkWorld {
  clock : nat -> Z;
  ticks : nat;
  server : nat -> reply;
  sent : list request
}.

Definition tick (w : World) : World :=
  mkWorld (clock w) (S (ticks w)) (server w) (sent w).

Definition log (r : request) (w : World) : World :=
  mkWorld (clock w) (ticks w) (server w) (sent w ++ [r]).

(** ** The client object *)

Record Homely : Type := mkHomely {
  _username : string;
  _password : string;
  _access_token : value;
  _access_token_expire : Z;
  _refresh_token : value;
  _refresh_token_expire : Z;
  _locations : value;
  _location_id : option string;
  _location_data : value;
  _data_refreshed : Z
}.

Definition set_access_token (v : value) (c : Homely) : Homely :=
  mkHomely (_username c) (_password c) v (_access_token_expire c)
    (_refresh_token c) (_refresh_token_expire c) (_locations c)
    (_location_id c) (_location_data c) (_data_refreshed c).

Definition set_access_token_expire (t : Z) (c : Homely) : Homely :=
  mkHomely (_username c) (_password c) (_access_token c) t
    (_refresh_token c) (_refresh_token_expire c) (_locations c)
    (_location_id c) (_location_data c) (_data_refreshed c).

Definition set_refresh_token (v : value) (c : Homely) : Homely :=
  mkHomely (_username c) (_password c) (_access_token c)
    (_access_token_expire c) v (_refresh_token_expire c) (_locations c)
    (_location_id c) (_location_data c) (_data_refreshed c).

Definition set_refresh_token_expire (t : Z) (c : Homely) : Homely :=
  mkHomely (_username c) (_password c) (_access_token c)
    (_access_token_expire c) (_refresh_token c) t (_locations c)
    (_location_id c) (_location_data c) (_data_refreshed c).

Definition set_locations (v : value) (c : Homely) : Homely :=
  mkHomely (_username c) (_password c) (_access_token c)
    (_access_token_expire c) (_refresh_token c) (_refresh_token_expire c) v
    (_location_id c) (_location_data c) (_data_refreshed c).

Definition set_location_data (v : value) (c : Homely) : Homely :=
  mkHomely (_username c) (_password c) (_access_token c)
    (_access_token_expire c) (_refresh_token c) (_refresh_token_expire c)
    (_locations c) (_location_id c) v (_data_refreshed c).

Definition set_data_refreshed (t : Z) (c : Homely) : Homely :=
  mkHomely (_username c) (_password c) (_access_token c)
    (_access_token_expire c) (_refresh_token c) (_refresh_token_expire c)
    (_locations c) (_location_id c) (_location_data c) t.

(** ** The monad of the methods *)

(** A method runs on the client and the world and returns or raises; the
    client and the world keep whatever was done before an exception. *)
Definition M (A : Type) : Type := Homely -> World -> outcome A * Homely * World.

Definition ret {A} (a : A) : M A := fun c w => (Returned a, c, w).

Definition raise {A} (e : exn) : M A := fun c w => (Raised e, c, w).

Definition bind {A B} (m : M A) (k : A -> M B) : M B :=
  fun c w =>
    match m c w with
    | (Returned a, c', w') => k a c' w'
    | (Raised e, c', w') => (Raised e, c', w')
    end.

Declare Scope homely_scope.
Delimit Scope homely_scope with homely.
Notation "x <- m ;; k" := (bind m (fun x => k))
  (at level 61, m at next level, right associativity) : homely_scope.
Notation "m ;; k" := (bind m (fun _ => k))
  (at level 61, right associativity) : homely_scope.
Open Scope homely_scope.

(** [self.attr] *)
Definition attr {A} (f : Homely -> A) : M A := fun c w => (Returned (f c), c, w).

(** [self.attr = v] *)
Definition assign (f : Homely -> Homely) : M unit :=
  fun c w => (Returned tt, f c, w).

(** [datetime.now()] *)
Definition now : M Z :=
  fun c w => (Returned (clock w (ticks w)), c, tick w).

(** A computation that touches neither the client nor the world. *)
Definition lift {A} (o : outcome A) : M A := fun c w => (o, c, w).

(** ** datetime and timedelta *)

Definition US_PER_SECOND : Z := 1000000.

(** [datetime.max], 9999-12-31T23:59:59.999999, in microseconds since
    [datetime.min]. *)
Definition DATETIME_MAX : Z := 3652059 * 86400 * US_PER_SECOND - 1.

(** [t + timedelta(seconds=secs)]: an [OverflowError] outside
    [datetime.min .. datetime.max] (a [timedelta] too large to build leaves
    that range as well). *)
Definition add_seconds (t secs : Z) : outcome Z :=
  let r := t + secs * US_PER_SECOND in
  if (0 <=? r) && (r <=? DATETIME_MAX) then Returned r else Raised OverflowError.

(** ** Python primitives on values *)

Fixpoint lookup (key : string) (d : list (string * value)) : option value :=
  match d with
  | [] => None
  | (k, v) :: d' => if String.eqb k key then Some v else lookup key d'
  end.

(** [int(f)] for a float: the fraction is dropped (truncation toward zero);
    an infinity raises [OverflowError] and a NaN raises [ValueError]. *)
Definition int_of_float (f : spec_float) : outcome Z :=
  match f with
  | S754_zero _ => Returned 0
  | S754_infinity _ => Raised OverflowError
  | S754_nan => Raised ValueError
  | S754_finite s m e =>
      let n := if 0 <=? e then Z.pos m * 2 ^ e else Z.pos m / 2 ^ (- e) in
      Returned (if s then - n else n)
  end.

(** [f == n] for a float and an integer, and [f == g] for two floats: the
    exact numbers are compared; a NaN equals nothing, the two zeros are
    equal. *)
Definition float_eq_int (f : spec_float) (n : Z) : bool :=
  match f with
  | S754_zero _ => n =? 0
  | S754_finite s m e =>
      let a := if s then Z.neg m else Z.pos m in
      if 0 <=? e then a * 2 ^ e =? n else a =? n * 2 ^ (- e)
  | _ => false
  end.

Definition float_eq (f g : spec_float) : bool :=
  match f, g with
  | S754_zero _, S754_zero _ => true
  | S754_infinity s, S754_infinity t => Bool.eqb s t
  | S754_finite s m e, S754_finite t m' e' =>
      Bool.eqb s t
      && (Z.pos m * 2 ^ (e - Z.min e e') =? Z.pos m' * 2 ^ (e' - Z.min e e'))
  | _, _ => false
  end.

(** [obj[key]] for a string key *)
Definition subscript (obj : value) (key : string) : outcome value :=
  match obj with
  | VDict d =>
      match lookup key d with
      | Some v => Returned v
      | None => Raised (KeyError key)
      end
  | _ => Raised TypeError
  end.

(** [obj.get(key, default)] *)
Definition dict_get (obj : value) (key : string) (default : value)
  : outcome value :=
  match obj with
  | VDict d =>
      match lookup key d with
      | Some v => Returned v
      | None => Returned default
      end
  | _ => Raised AttributeError
  end.

(** [json.loads(await response.text())], for a body that is read: the
    document, or [JSONDecodeError] when the body is not JSON. *)
Definition json_loads (r : response) : outcome value :=
  match text r with
  | Some v => Returned v
  | None => Raised JSONDecodeError
  end.

(** A local variable that is assigned on one branch only: reading it when it
    was never bound raises [UnboundLocalError]. *)
Definition read_local (name : string) (x : option value) : outcome value :=
  match x with
  | Some v => Returned v
  | None => Raised (UnboundLocalError name)
  end.

(** An f-string field holding a location id. *)
Definition format_id (l : option string) : string :=
  match l with
  | Some s => s
  | None => "None"
  end.

(** [x in [200, 201]] *)
Definition in_200_201 (s : Z) : bool := (s =? 200) || (s =? 201).

(** ** The class [Homely] *)

Definition URL_API : string := "https://sdk.iotiliti.cloud/homely".
Definition URL_TOKEN : string := (URL_API ++ "/oauth/token")%string.
Definition URL_TOKEN_REFRESH : string := (URL_API ++ "/oauth/refresh-token")%string.
Definition URL_LOCATIONS : string := (URL_API ++ "/locations")%string.
Definition URL_LOCATION_DATA : string := (URL_API ++ "/home/")%string.

(** Minimum time between requests *)
Definition REFRESH_LIMIT : Z := 10.
(** Seconds subtracted from the token expiration time *)
Definition TOKEN_EXPIRE_MARGIN : Z := 20.

(** ** More of Python on values *)

(** Sequencing of computations that touch neither client nor world. *)
Definition and_then {A B} (o : outcome A) (k : A -> outcome B) : outcome B :=
  match o with
  | Returned a => k a
  | Raised e => Raised e
  end.

Notation "x <~ o ;; k" := (and_then o (fun x => k))
  (at level 61, o at next level, right associativity) : homely_scope.

(** [a == b].  A boolean compares as the integer 0 or 1, and numbers compare
    by their exact values whether [int] or [float]; lists compare
    element by element; dicts compare key by key whatever the order (a dict
    holds a key once).  Values carry no identity, so the shortcut by which a
    list or a dict takes an element to equal itself is not represented: it
    shows on a NaN held inside a container only. *)
Fixpoint py_eq (a b : value) {struct a} : bool :=
  match a, b with
  | VNone, VNone => true
  | VBool x, VBool y => Bool.eqb x y
  | VBool x, VInt n => (if x then 1 else 0) =? n
  | VInt n, VBool x => n =? (if x then 1 else 0)
  | VInt m, VInt n => m =? n
  | VFloat f, VFloat g => float_eq f g
  | VFloat f, VInt n => float_eq_int f n
  | VInt n, VFloat f => float_eq_int f n
  | VFloat f, VBool x => float_eq_int f (if x then 1 else 0)
  | VBool x, VFloat f => float_eq_int f (if x then 1 else 0)
  | VStr s, VStr t => String.eqb s t
  | VList l, VList l' =>
      (fix all2 (l : list value) (l' : list value) {struct l} : bool :=
         match l, l' with
         | [], [] => true
         | x :: xs, y :: ys => py_eq x y && all2 xs ys
         | _, _ => false
         end) l l'
  | VDict d, VDict d' =>
      Nat.eqb (List.length d) (List.length d')
      && (fix all (d : list (string * value)) {struct d} : bool :=
            match d with
            | [] => true
            | (k, v) :: r =>
                match lookup k d' with
                | Some v' => py_eq v v'
                | None => false
                end && all r
            end) d
  | _, _ => false
  end.

(** The one-character strings of a string, in order. *)
Fixpoint chars (s : string) : list value :=
  match s with
  | EmptyString => []
  | String a r => VStr (String a EmptyString) :: chars r
  end.

(** What [for x in v] goes through: the elements of a list, the keys of a
    dict, the characters of a string; anything else is not iterable. *)
Definition iter_values (v : value) : outcome (list value) :=
  match v with
  | VList l => Returned l
  | VDict d => Returned (map (fun kv => VStr (fst kv)) d)
  | VStr s => Returned (chars s)
  | _ => Raised TypeError
  end.

(** [needle in hay] for two strings. *)
Fixpoint contains (needle hay : string) : bool :=
  String.prefix needle hay
  || match hay with
     | EmptyString => false
     | String _ r => contains needle r
     end.

(** [key in v] for a string [key]: a key of a dict, an element of a list, a
    substring of a string. *)
Definition py_in (key : string) (v : value) : outcome bool :=
  match v with
  | VDict d => Returned (match lookup key d with Some _ => true | None => false end)
  | VList l => Returned (existsb (py_eq (VStr key)) l)
  | VStr s => Returned (contains key s)
  | _ => Raised TypeError
  end.

(** [d.get(key)] on a dict whose keys are strings, for any [key]: a list or a
    dict is not hashable, and a key that is not a string is not found. *)
Definition table_get (d : list (string * string)) (key : value) : outcome value :=
  match key with
  | VList _ | VDict _ => Raised TypeError
  | VStr s =>
      match find (fun kv => String.eqb (fst kv) s) d with
      | Some kv => Returned (VStr (snd kv))
      | None => Returned VNone
      end
  | _ => Returned VNone
  end.

(** [list(dict.fromkeys(l))]: [l] without repetitions, each string at its
    first place. *)
Definition fromkeys (l : list string) : list string :=
  fold_left
    (fun acc x => if existsb (String.eqb x) acc then acc else acc ++ [x])
    l [].

(** ** coordinator.py: [HomelyDataUpdateCoordinator.get_device_data] *)

(** The loop of [get_device_data] over the devices still to look at. *)
Fixpoint get_device_data_loop (devices : list value) (device_id : value)
  : outcome value :=
  match devices with
  | [] => Returned VNone
  | device :: rest =>
      id <~ dict_get device "id" VNone ;;
      if py_eq id device_id then Returned device
      else get_device_data_loop rest device_id
  end.

(** [get_device_data], on the coordinator's [data]. *)
Definition get_device_data (data device_id : value) : outcome value :=
  devices <~ subscript data "devices" ;;
  l <~ iter_values devices ;;
  get_device_data_loop l device_id.

(** ** sensor.py *)

Module Sensor.

Definition STATE_DISARMED : string := "state_disarmed".
Definition STATE_ARMED_AWAY : string := "state_armed_away".
Definition STATE_ARMED_HOME : string := "state_armed_home".
Definition STATE_ARMED_NIGHT : string := "state_armed_night".
Definition STATE_BREACHED : string := "state_breached".
Definition STATE_PENDING : string := "state_pending".
Definition STATE_UNKNOWN : string := "state_unknown".

(** The state of a device sensor: the attributes [_device_data] and
    [_device_id] (the unique id, an f-string of the device id, is not
    represented). *)
Record device_sensor : Type := mkDeviceSensor {
  _device_data : value;
  _device_id : value
}.

(** [__init__] of [HomelyThermometer] and of [HomelyBattery]. *)
Definition device_sensor_init (device_data : value) : outcome device_sensor :=
  id <~ subscript device_data "id" ;;
  Returned (mkDeviceSensor device_data id).

(** [available] of [HomelyThermometer] and of [HomelyBattery]:
    [super_available] is what [super().available] gives.  The sensor comes
    back with the device it has just looked up. *)
Definition device_sensor_available (self : device_sensor)
    (super_available : bool) (data : value)
  : outcome value * device_sensor :=
  match get_device_data data (_device_id self) with
  | Raised e => (Raised e, self)
  | Returned device =>
      (if super_available then dict_get device "online" (VBool false)
       else Returned (VBool false),
       mkDeviceSensor device (_device_id self))
  end.

Module HomelyAlarmState.

Definition _alarm_states : list (string * string) :=
  [("DISARMED", STATE_DISARMED);
   ("ARMED_AWAY", STATE_ARMED_AWAY);
   ("ARMED_STAY", STATE_ARMED_HOME);
   ("ARMED_NIGHT", STATE_ARMED_NIGHT);
   ("BREACHED", STATE_BREACHED);
   ("ALARM_PENDING", STATE_PENDING);
   ("ALARM_STAY_PENDING", STATE_PENDING);
   ("ARMED_NIGHT_PENDING", STATE_PENDING);
   ("UNKNOWN", STATE_UNKNOWN)].

Definition _attr_options : list string := fromkeys (map snd _alarm_states).

(** [native_value], on the coordinator's [data]. *)
Definition native_value (data : value) : outcome value :=
  state <~ dict_get data "alarmState" (VStr "UNKNOWN") ;;
  table_get _alarm_states state.

End HomelyAlarmState.

Module HomelyThermometer.

(** The expression that [native_value] returns, on the device looked up:
    [device["features"]["temperature"]["states"]["temperature"].get("value",
    None)]. *)
Definition temperature_of (device : value) : outcome value :=
  features <~ subscript device "features" ;;
  temperature <~ subscript features "temperature" ;;
  states <~ subscript temperature "states" ;;
  reading <~ subscript states "temperature" ;;
  dict_get reading "value" VNone.

(** [native_value], on the coordinator's [data].  The sensor comes back with
    the device it has just looked up. *)
Definition native_value (self : device_sensor) (data : value)
  : outcome value * device_sensor :=
  match get_device_data data (_device_id self) with
  | Raised e => (Raised e, self)
  | Returned device =>
      (temperature_of device, mkDeviceSensor device (_device_id self))
  end.

Definition available := device_sensor_available.

End HomelyThermometer.

Module HomelyBattery.

Definition available := device_sensor_available.

End HomelyBattery.

(** The entities that [async_setup_entry] hands over. *)
Inductive entity : Type :=
| AlarmState
| Thermometer (sensor : device_sensor)
| Battery (sensor : device_sensor).

(** The body of the loop of [async_setup_entry] for one device: the sensors
    it appends. *)
Definition sensors_of_device (device : value) : outcome (list entity) :=
  features <~ subscript device "features" ;;
  has_temperature <~ py_in "temperature" features ;;
  thermometers <~ (if has_temperature
                   then s <~ device_sensor_init device ;;
                        Returned [Thermometer s]
                   else Returned []) ;;
  features <~ subscript device "features" ;;
  has_battery <~ py_in "battery" features ;;
  batteries <~ (if has_battery
                then s <~ device_sensor_init device ;; Returned [Battery s]
                else Returned []) ;;
  Returned (thermometers ++ batteries).

Fixpoint sensors_of_devices (devices : list value) : outcome (list entity) :=
  match devices with
  | [] => Returned []
  | device :: rest =>
      here <~ sensors_of_device device ;;
      there <~ sensors_of_devices rest ;;
      Returned (here ++ there)
  end.

(** [async_setup_entry], on the coordinator's [data]: the list passed to
    [async_add_entities], which is not called when the loop raises. *)
Definition async_setup_entry (data : value) : outcome (list entity) :=
  devices <~ subscript data "devices" ;;
  l <~ iter_values devices ;;
  sensors <~ sensors_of_devices l ;;
  Returned (AlarmState :: sensors).

End Sensor.

(** The device id as a string, for a device that is a dict with a string
    under ["id"]. *)
Definition id_of (device : value) : option string :=
  match device with
  | VDict kv =>
      match lookup "id" kv with
      | Some (VStr s) => Some s
      | _ => None
      end
  | _ => None
  end.

(** A device that [get_device_data] passes by, and one it stops at, when it
    looks for [device_id]. *)
Definition id_differs (device_id device : value) : Prop :=
  exists v, dict_get device "id" VNone = Returned v /\ py_eq v device_id = false.

Definition id_matches (device_id device : value) : Prop :=
  exists v, dict_get device "id" VNone = Returned v /\ py_eq v device_id = true.

(** A device as the setup of the sensors expects it: a dict with an ["id"]
    and with a dict under ["features"]. *)
Definition well_formed_device (device : value) : Prop :=
  exists kv id features,
    device = VDict kv
    /\ lookup "id" kv = Some id
    /\ lookup "features" kv = Some (VDict features).

(** Whether a device has the feature [name], for a device whose features are
    a dict. *)
Definition has_feature (name : string) (device : value) : bool :=
  match device with
  | VDict kv =>
      match lookup "features" kv with
      | Some (VDict features) =>
          match lookup name features with
          | Some _ => true
          | None => false
          end
      | _ => false
      end
  | _ => false
  end.

(** An entity that a device of the list [l] gave rise to: it holds that
    device and its id. *)
Definition sensor_of (l : list value) (e : Sensor.entity) : Prop :=
  match e with
  | Sensor.AlarmState => False
  | Sensor.Thermometer s | Sensor.Battery s =>
      In (Sensor._device_data s) l
      /\ subscript (Sensor._device_data s) "id"
         = Returned (Sensor._device_id s)
  end.

(** The devices held by the thermometers among the entities, in their
    order, and those held by the battery sensors. *)
Definition thermometer_devices (es : list Sensor.entity) : list value :=
  flat_map (fun e => match e with
                     | Sensor.Thermometer s => [Sensor._device_data s]
                     | _ => []
                     end) es.

Definition battery_devices (es : list Sensor.entity) : list value :=
  flat_map (fun e => match e with
                     | Sensor.Battery s => [Sensor._device_data s]
                     | _ => []
                     end) es.

(** A snapshot with two devices, a thermometer with a battery and a device
    with neither. *)
Definition thermometer_device : value :=
  VDict [("id", VStr "d1"); ("name", VStr "Hall"); ("online", VBool true);
         ("features",
          VDict [("temperature",
                  VDict [("states",
                          VDict [("temperature",
                                  VDict [("value", VInt 21)])])]);
                 ("battery", VDict [])])].

Definition plain_device : value :=
  VDict [("id", VStr "d2"); ("features", VDict [])].

Definition two_devices : value :=
  VDict [("alarmState", VStr "ARMED_STAY");
         ("devices", VList [thermometer_device; plain_device])].

Section Client.

(** [int(s)] for a string [s], [None] when it raises [ValueError]: the
    built-in's grammar is left as a parameter. *)
Variable int_of_str : string -> option Z.

(** [int(v)] *)
Definition py_int (v : value) : outcome Z :=
  match v with
  | VInt n => Returned n
  | VBool b => Returned (if b then 1 else 0)
  | VFloat f => int_of_float f
  | VStr s =>
      match int_of_str s with
      | Some n => Returned n
      | None => Raised ValueError
      end
  | _ => Raised TypeError
  end.

(** [__init__]: the client as constructed, with its three clock readings. *)
Definition init (username password : string) (location_id : option string)
  : World -> outcome Homely * World :=
  fun w =>
    let blank :=
      mkHomely username password VNone 0 VNone 0 (VDict []) location_id VNone 0 in
    let body :=
      t1 <- now ;;
      e1 <- lift (add_seconds t1 (- 3600)) ;;
      assign (set_access_token_expire e1) ;;
      t2 <- now ;;
      e2 <- lift (add_seconds t2 (- 3600)) ;;
      assign (set_refresh_token_expire e2) ;;
      t3 <- now ;;
      e3 <- lift (add_seconds t3 (- (REFRESH_LIMIT + 60))) ;;
      assign (set_data_refreshed e3) in
    match body blank w with
    | (Returned _, c, w') => (Returned c, w')
    | (Raised e, _, w') => (Raised e, w')
    end.

(** [_request]: hands the request to the session; the status is not looked
    at here.  The two handlers end in [raise RequestFailed(...) from Homely]:
    the cause named after [from] is the class [Homely], which is not an
    exception, so the statement itself raises [TypeError] (exception causes
    must derive from [BaseException]) and the [RequestFailed] just built is
    never raised. *)
Definition _request (u : string) (d : req_data) (rt : string) : M response :=
  if (rt =? "GET")%string || (rt =? "POST")%string then
    fun c w =>
      let w' := log (mkRequest u d rt) w in
      match server w (List.length (sent w)) with
      | Response s t => (Returned (mkResponse s t), c, w')
      | ClientError => (Raised TypeError, c, w')
      | TimeoutError => (Raised TypeError, c, w')
      end
  else raise (InvalidArgument "req_type must be either GET or POST").

(** [_token_expired] *)
Definition _token_expired (expire : Z) : M bool :=
  t <- now ;;
  if expire <? t then ret true else ret false.

(** [_access_token_valid] *)
Definition _access_token_valid : M bool :=
  tok <- attr _access_token ;;
  expired <- (if is_None tok then ret true
              else e <- attr _access_token_expire ;; _token_expired e) ;;
  if expired then ret false else ret true.

(** The four assignments that install a token pair from a login or refresh
    response (lines 132-141 and 236-243). *)
Definition install_tokens (resp_data : outcome value) : M unit :=
  d <- lift resp_data ;;
  at_ <- lift (subscript d "access_token") ;;
  assign (set_access_token at_) ;;
  t <- now ;;
  d <- lift resp_data ;;
  ei <- lift (subscript d "expires_in") ;;
  n <- lift (py_int ei) ;;
  e <- lift (add_seconds t (n - TOKEN_EXPIRE_MARGIN)) ;;
  assign (set_access_token_expire e) ;;
  d <- lift resp_data ;;
  rt <- lift (subscript d "refresh_token") ;;
  assign (set_refresh_token rt) ;;
  t <- now ;;
  d <- lift resp_data ;;
  ei <- lift (subscript d "refresh_expires_in") ;;
  n <- lift (py_int ei) ;;
  e <- lift (add_seconds t (n - TOKEN_EXPIRE_MARGIN)) ;;
  assign (set_refresh_token_expire e).

(** [_refresh_access_token] *)
Definition _refresh_access_token : M bool :=
  rt <- attr _refresh_token ;;
  no_token <- (if is_None rt then ret true
               else e <- attr _refresh_token_expire ;; _token_expired e) ;;
  if no_token then raise (TokenExpiredError "No valid refresh-token") else
  rt <- attr _refresh_token ;;
  response <- _request URL_TOKEN_REFRESH (DictOf [("refresh_token", rt)]) "POST" ;;
  if 500 <=? status response then raise (ResponseError (status response)) else
  if status response =? 400 then raise (LoginError "Invalid refresh token") else
  if 401 <=? status response then raise (LoginError "Unauthorized") else
  if in_200_201 (status response) then
    resp_data <- lift (json_loads response) ;;
    install_tokens (Returned resp_data) ;;
    ret true
  else ret false.

(** The tail of [get_token] (lines 221-244): the full login with username and
    password. *)
Definition get_token_login : M bool :=
  u <- attr _username ;;
  p <- attr _password ;;
  response <- _request URL_TOKEN
                (DictOf [("username", VStr u); ("password", VStr p)]) "POST" ;;
  if 500 <=? status response then raise (ResponseError (status response)) else
  if 400 <=? status response then raise (LoginError "Invalid credentials") else
  resp_data <- (if in_200_201 (status response)
                then d <- lift (json_loads response) ;; ret (Some d)
                else ret None) ;;
  install_tokens (read_local "resp_data" resp_data) ;;
  ret true.

(** [get_token] *)
Definition get_token : M bool :=
  valid <- _access_token_valid ;;
  if valid then ret true else
  rt <- attr _refresh_token ;;
  try_refresh <- (if is_None rt then ret false
                  else e <- attr _refresh_token_expire ;;
                       expired <- _token_expired e ;;
                       ret (negb expired)) ;;
  refreshed <- (if try_refresh then
                  _refresh_access_token ;;
                  _access_token_valid
                else ret false) ;;
  if refreshed then ret true else get_token_login.

(** [set_location_id] *)
Definition set_location_id (location_id : option string) : M unit :=
  fun c w =>
    (Returned tt,
     mkHomely (_username c) (_password c) (_access_token c)
       (_access_token_expire c) (_refresh_token c) (_refresh_token_expire c)
       (_locations c) location_id (_location_data c) (_data_refreshed c),
     w).

(** [_get_location_data] *)
Definition _get_location_data (location_id : option string) : M bool :=
  own <- attr _location_id ;;
  match own, location_id with
  | None, None => raise (LoginError "Invalid location ID")
  | _, _ =>
    get_token ;;
    req_loc_id <- match location_id with
                  | Some l => ret (Some l)
                  | None => attr _location_id
                  end ;;
    refreshed <- attr _data_refreshed ;;
    next_refresh <- lift (add_seconds refreshed REFRESH_LIMIT) ;;
    t <- now ;;
    if t <? next_refresh then ret true else
    tok <- attr _access_token ;;
    response <- _request (URL_LOCATION_DATA ++ format_id req_loc_id)%string
                  (Bearer tok) "GET" ;;
    if 500 <=? status response then raise (ResponseError (status response)) else
    if status response =? 400 then raise (LoginError "Invalid location ID") else
    if 401 <=? status response then raise (LoginError "Unauthorized") else
    if in_200_201 (status response) then
      d <- lift (json_loads response) ;;
      assign (set_location_data d) ;;
      t <- now ;;
      assign (set_data_refreshed t) ;;
      ret true
    else ret false
  end.

(** [get_users_locations] *)
Definition get_users_locations : M value :=
  valid <- _access_token_valid ;;
  if negb valid then raise (LoginError "No valid access token") else
  tok <- attr _access_token ;;
  response <- _request URL_LOCATIONS (Bearer tok) "GET" ;;
  if 500 <=? status response then raise (ResponseError (status response)) else
  if 400 <=? status response then raise (LoginError "Unauthorized") else
  resp_data <- (if in_200_201 (status response)
                then d <- lift (json_loads response) ;; ret (Some d)
                else ret None) ;;
  d <- lift (read_local "resp_data" resp_data) ;;
  assign (set_locations d) ;;
  attr _locations.

(** [get_system_state] *)
Definition get_system_state (location_id : option string) : M value :=
  _get_location_data location_id ;;
  d <- attr _location_data ;;
  lift (dict_get d "alarmState" (VStr "UNKNOWN")).

(** [get_devices] *)
Definition get_devices (location_id : option string) : M value :=
  _get_location_data location_id ;;
  d <- attr _location_data ;;
  lift (dict_get d "devices" (VList [])).

(** [get_data] *)
Definition get_data (location_id : option string) : M value :=
  _get_location_data location_id ;;
  attr _location_data.

(** ** Reasoning about methods *)

(** [keeps R m]: whatever [m] does, returning or raising, the client and the
    world it leaves are related by [R] to those it started from. *)
Definition keeps {A} (R : Homely -> World -> Homely -> World -> Prop)
  (m : M A) : Prop :=
  forall c w o c' w', m c w = (o, c', w') -> R c w c' w'.

(** [raises_only P m]: every exception that leaves [m] satisfies [P]. *)
Definition raises_only {A} (P : exn -> Prop) (m : M A) : Prop :=
  forall c w e c' w', m c w = (Raised e, c', w') -> P e.

(** ** Vocabulary of the statements *)

(** What the token manager leaves alone: the location cache, the configured
    location, and the behaviour of clock and server; clock readings are only
    ever added. *)
Definition frame (c : Homely) (w : World) (c' : Homely) (w' : World) : Prop :=
  _location_data c' = _location_data c /\
  _data_refreshed c' = _data_refreshed c /\
  _location_id c' = _location_id c /\
  clock w' = clock w /\
  server w' = server w /\
  (ticks w <= ticks w')%nat.

(** The requests the client makes: the login, the refresh, and the fetch
    of a location. *)
Definition login_request (c : Homely) : request :=
  mkRequest URL_TOKEN
    (DictOf [("username", VStr (_username c)); ("password", VStr (_password c))])
    "POST".

Definition refresh_request (c : Homely) : request :=
  mkRequest URL_TOKEN_REFRESH (DictOf [("refresh_token", _refresh_token c)])
    "POST".

Definition location_request (c : Homely) (location_id : option string)
  : request :=
  mkRequest
    (URL_LOCATION_DATA
       ++ format_id (match location_id with
                     | Some l => Some l
                     | None => _location_id c
                     end))%string
    (Bearer (_access_token c)) "GET".

(** [isinstance(e, TokenExpiredError)], and its negation. *)
Definition is_TokenExpiredError (e : exn) : bool :=
  match e with
  | TokenExpiredError _ => true
  | _ => false
  end.

Definition other_error (e : exn) : Prop := is_TokenExpiredError e = false.

Definition US_PER_MILLISECOND : Z := 1000.

(** No request is made. *)
Definition silent (c : Homely) (w : World) (c' : Homely) (w' : World) : Prop :=
  sent w' = sent w.

(** What a client looks like when [install_tokens] has run to its end on the
    response document [d], with [t] the reading of the clock taken for the
    expiry of the access token. *)
Definition tokens_installed (t : Z) (d : value) (c' : Homely) : Prop :=
  exists (tok v : value) (n : Z),
    subscript d "access_token" = Returned tok
    /\ _access_token c' = tok
    /\ subscript d "expires_in" = Returned v
    /\ py_int v = Returned n
    /\ _access_token_expire c'
       = t + (n - TOKEN_EXPIRE_MARGIN) * US_PER_SECOND.

(** [n] is the float [f] with its fraction dropped: of the same sign, and
    in magnitude the largest integer not above the magnitude of [f]. *)
Definition truncated (f : spec_float) (n : Z) : Prop :=
  match f with
  | S754_zero _ => n = 0
  | S754_finite s m e =>
      exists a : Z,
        n = (if s then - a else a)
        /\ 0 <= a
        /\ (0 <= e -> a = Z.pos m * 2 ^ e)
        /\ (e < 0 -> a * 2 ^ (- e) <= Z.pos m < (a + 1) * 2 ^ (- e))
  | _ => False
  end.

(** The validity test around an expiry, one millisecond before and after. *)
Definition valid_until (c' : Homely) : Prop :=
  forall w2 : World,
    (clock w2 (ticks w2) = _access_token_expire c' - US_PER_MILLISECOND ->
     _access_token_valid c' w2 = (Returned true, c', tick w2))
    /\ (clock w2 (ticks w2) = _access_token_expire c' + US_PER_MILLISECOND ->
        _access_token_valid c' w2 = (Returned false, c', tick w2)).

(** The calls a user of the client can make, and a sequence of them on one
    client: an exception ends the call that raised it, and the next call
    finds the client and the world as that call left them. *)
Inductive call : Type :=
| CallGetToken
| CallSetLocationId (location_id : option string)
| CallGetUsersLocations
| CallGetSystemState (location_id : option string)
| CallGetDevices (location_id : option string)
| CallGetData (location_id : option string).

Definition perform (k : call) : M unit :=
  match k with
  | CallGetToken => get_token ;; ret tt
  | CallSetLocationId l => set_location_id l
  | CallGetUsersLocations => get_users_locations ;; ret tt
  | CallGetSystemState l => get_system_state l ;; ret tt
  | CallGetDevices l => get_devices l ;; ret tt
  | CallGetData l => get_data l ;; ret tt
  end.

Fixpoint run (ks : list call) (c : Homely) (w : World) : Homely * World :=
  match ks with
  | [] => (c, w)
  | k :: ks' =>
      match perform k c w with
      | (_, c', w') => run ks' c' w'
      end
  end.

(** Either a snapshot is held, or the timestamp is still the one that
    [__init__] wrote. *)
Definition cache_ok (t0 : Z) (c : Homely) : Prop :=
  _location_data c <> VNone \/ _data_refreshed c = t0.

(** No success answer of the server has [null] for its body. *)
Definition no_null_body (w : World) : Prop :=
  forall (k : nat) (s : Z),
    in_200_201 s = true -> server w k <> Response s (Some VNone).

(** What one call of [_get_location_data] does to the cache: nothing, or
    both fields at once from a 200/201 answer. *)
Definition cache_step (c : Homely) (w : World) (o : outcome bool)
    (c' : Homely) (w' : World) : Prop :=
  (_location_data c' = _location_data c
   /\ _data_refreshed c' = _data_refreshed c)
  \/ (exists (s : Z) (d : value),
        server w (pred (List.length (sent w'))) = Response s (Some d)
        /\ in_200_201 s = true
        /\ o = Returned true
        /\ _location_data c' = d
        /\ _data_refreshed c' = clock w (pred (ticks w'))).

(** The clock and the server behave as before; readings are only added. *)
Definition same_world (c : Homely) (w : World) (c' : Homely) (w' : World)
  : Prop :=
  clock w' = clock w /\ server w' = server w /\ (ticks w <= ticks w')%nat.

(** ** Vocabulary of the further statements *)

(** Everything of the client but the two tokens and their expiries. *)
Definition tokens_only (c c' : Homely) : Prop :=
  _username c' = _username c
  /\ _password c' = _password c
  /\ _locations c' = _locations c
  /\ _location_id c' = _location_id c
  /\ _location_data c' = _location_data c
  /\ _data_refreshed c' = _data_refreshed c.

(** A request to the login or to the refresh endpoint. *)
Definition token_endpoint (r : request) : Prop :=
  url r = URL_TOKEN \/ url r = URL_TOKEN_REFRESH.

(** The footprint of the token manager: it writes the token fields only and
    adds requests to the two token endpoints only. *)
Definition token_traffic (c : Homely) (w : World) (c' : Homely) (w' : World)
  : Prop :=
  tokens_only c c'
  /\ exists l : list request, sent w' = sent w ++ l /\ Forall token_endpoint l.

(** What a client looks like when [install_tokens] has run to its end on the
    response document [d], with [t] the reading of the clock taken for the
    expiry of the refresh token. *)
Definition refresh_installed (t : Z) (d : value) (c' : Homely) : Prop :=
  exists (tok v : value) (n : Z),
    subscript d "refresh_token" = Returned tok
    /\ _refresh_token c' = tok
    /\ subscript d "refresh_expires_in" = Returned v
    /\ py_int v = Returned n
    /\ _refresh_token_expire c'
       = t + (n - TOKEN_EXPIRE_MARGIN) * US_PER_SECOND.

(** The request of [get_users_locations]. *)
Definition locations_request (c : Homely) : request :=
  mkRequest URL_LOCATIONS (Bearer (_access_token c)) "GET".

(** *** coordinator.py: [HomelyDataUpdateCoordinator._async_update_data] *)

(** [isinstance(e, HomelyError)]: the six classes of the module derive from
    [HomelyError], the built-in ones do not. *)
Definition is_HomelyError (e : exn) : bool :=
  match e with
  | ResponseError _ | TokenExpiredError _ | InvalidArgument _
  | RequestFailed _ | LoginError _ | NoAuth _ => true
  | _ => false
  end.

(** How an update ends: with the data, with [UpdateFailed(ex)] raised from a
    caught [HomelyError], or with an exception that the [except] clause does
    not catch. *)
Inductive update_outcome : Type :=
| Updated (data : value)
| UpdateFailed (ex : exn)
| Uncaught (e : exn).

(** [_async_update_data]: [get_data()] with no location passed. *)
Definition _async_update_data (c : Homely) (w : World)
  : update_outcome * Homely * World :=
  match get_data None c w with
  | (Returned d, c', w') => (Updated d, c', w')
  | (Raised e, c', w') =>
      (if is_HomelyError e then UpdateFailed e else Uncaught e, c', w')
  end.

(** The messages of the [LoginError]s of the token step, of the calls on a
    location, and of [get_users_locations]. *)
Definition TOKEN_LOGIN_ERRORS : list string :=
  ["Invalid refresh token"; "Unauthorized"; "Invalid credentials"].

Definition LOCATION_LOGIN_ERRORS : list string :=
  "Invalid location ID" :: TOKEN_LOGIN_ERRORS.

Definition LOCATIONS_LOGIN_ERRORS : list string :=
  ["No valid access token"; "Unauthorized"].

(** What an exception of one of the classes of the module is when a call of
    the client raises it, [msgs] being the messages that a [LoginError] of
    the call can carry: a [ResponseError] with a status of 500 and above, a
    [LoginError] with one of these messages, or the [TokenExpiredError] of
    the refresh, and none of [InvalidArgument], [RequestFailed] and [NoAuth].
    Of the built-in exceptions it says nothing. *)
Definition module_failure (msgs : list string) (e : exn) : Prop :=
  match e with
  | ResponseError s => 500 <= s
  | TokenExpiredError msg => msg = "No valid refresh-token"
  | LoginError msg => In msg msgs
  | InvalidArgument _ | RequestFailed _ | NoAuth _ => False
  | _ => True
  end.

(** The client with [_location_id] set to [location_id], every other
    attribute as it is: what [set_location_id] leaves. *)
Definition with_location_id (location_id : option string) (c : Homely)
  : Homely :=
  mkHomely (_username c) (_password c) (_access_token c)
    (_access_token_expire c) (_refresh_token c) (_refresh_token_expire c)
    (_locations c) location_id (_location_data c) (_data_refreshed c).

(** [ignores_location_id m]: [m] neither reads nor writes
    [_location_id]. *)
Definition ignores_location_id {A} (m : M A) : Prop :=
  forall (l : option string) (c : Homely) (w : World),
    m (with_location_id l c) w
    = match m c w with
      | (o, c', w') => (o, with_location_id l c', w')
      end.

(** ** Example clients and worlds *)

(** Times in the examples are around [1000000000000] microseconds. *)

(** A snapshot as the location endpoint sends it. *)
Definition snapshot_example : value :=
  VDict [("alarmState", VStr "ARMED_AWAY"); ("devices", VList [])].

(** A login or refresh document whose access token lives [expires_in]
    seconds. *)
Definition token_document (expires_in : Z) : value :=
  VDict [("access_token", VStr "a1"); ("expires_in", VInt expires_in);
         ("refresh_token", VStr "r1"); ("refresh_expires_in", VInt 7200)].

Definition snapshot_answer : reply := Response 200 (Some snapshot_example).

Definition token_answer : reply := Response 200 (Some (token_document 3600)).

(** A client that holds a snapshot taken at [1000000000000] and no token. *)
Definition logged_out_client : Homely :=
  mkHomely "user" "secret" VNone 0 VNone 0 (VDict []) (Some "loc1")
    snapshot_example 1000000000000.

(** A client that holds a token pair good until long after
    [1000000000001], with its snapshot taken at [refreshed]. *)
Definition logged_in_client (refreshed : Z) : Homely :=
  mkHomely "user" "secret" (VStr "a1") 2000000000000 (VStr "r1") 3000000000000
    (VDict []) (Some "loc1") snapshot_example refreshed.

(** A client whose access token is absent and whose refresh token expires at
    [refresh_expire]. *)
Definition refreshable_client (refresh_expire : Z) : Homely :=
  mkHomely "user" "secret" VNone 0 (VStr "r1") refresh_expire
    (VDict []) (Some "loc1") snapshot_example 1000000000000.

(** A client with neither token nor snapshot. *)
Definition fresh_client : Homely :=
  mkHomely "user" "secret" VNone 0 VNone 0 (VDict []) (Some "loc1") VNone 0.

(** A world whose clock stands at [1000000000001] and whose server gives one
    answer to every request. *)
Definition still_world (answer : reply) : World :=
  mkWorld (fun _ => 1000000000001) 0 (fun _ => answer) [].

(** A world with the clock [clk] whose server gives the listed answers in
    turn and fails to connect after them. *)
Definition scripted_world (clk : nat -> Z) (answers : list reply) : World :=
  mkWorld clk 0 (fun k => nth k answers ClientError) [].

(** A clock given by its first readings, standing at [last] after them. *)
Definition readings (first : list Z) (last : Z) (k : nat) : Z :=
  nth k first last.

(** A clock that advances one second per reading for ten readings and then
    stands. *)
Definition ten_seconds : nat -> Z :=
  readings
    [1000000000000; 1000001000000; 1000002000000; 1000003000000;
     1000004000000; 1000005000000; 1000006000000; 1000007000000;
     1000008000000; 1000009000000]
    1000010000000.

(** A clock that reads [1000000000001] and from then on one microsecond
    more. *)
Definition microsecond_steps : nat -> Z :=
  readings [1000000000001] 1000000000002.

(** A clock that stands at [1000000000001] except for its seventh reading,
    65 seconds earlier. *)
Definition one_reading_back : nat -> Z :=
  readings
    [1000000000001; 1000000000001; 1000000000001; 1000000000001;
     1000000000001; 1000000000001; 999935000001]
    1000000000001.

(** A document whose [expires_in] is the float 3599.5, and one whose
    [access_token] is [null]. *)
Definition float_token_document : value :=
  VDict [("access_token", VStr "a2");
         ("expires_in", VFloat (S754_finite false 7199 (-1)));
         ("refresh_token", VStr "r2"); ("refresh_expires_in", VInt 7200)].

Definition null_token_document : value :=
  VDict [("access_token", VNone); ("expires_in", VInt 3600);
         ("refresh_token", VStr "r1"); ("refresh_expires_in", VInt 7200)].

(** The refresh of a client without access token, answered with the float
    document. *)
Definition refresh_run : outcome bool * Homely * World :=
  _refresh_access_token (refreshable_client 3000000000000)
    (still_world (Response 200 (Some float_token_document))).

(** The full login of the logged-out client, answered with a token that
    lives an hour. *)
Definition login_run : outcome bool * Homely * World :=
  get_token_login logged_out_client (still_world token_answer).

(** A server that answers a login with a token good for three seconds, then
    a fetch, then a refresh. *)
Definition short_token_world : World :=
  scripted_world ten_seconds
    [Response 200 (Some (token_document 23));
     snapshot_answer;
     Response 200 (Some (token_document 3600))].

(** The first [get_data] of a fresh client in that world: it logs in and
    fetches. *)
Definition first_call : outcome value * Homely * World :=
  get_data None fresh_client short_token_world.

(** The client that [__init__] builds in the world [w0]. *)
Definition built (w0 : World) : outcome Homely * World :=
  init "user" "secret" (Some "loc1") w0.

Definition built_client (w0 : World) : Homely :=
  match fst (built w0) with
  | Returned c => c
  | Raised _ => fresh_client
  end.

(** A server whose answer to the fetch is 200 with the body [null]. *)
Definition null_body_world : World :=
  scripted_world (fun _ => 1000000000001)
    [token_answer; Response 200 (Some VNone)].

(** A server that never sends [null], under a clock that reads 65 seconds
    back once. *)
Definition clock_back_world : World :=
  mkWorld one_reading_back 0 (fun _ => token_answer) [].

(** An instance of the parameter [int_of_str]: [int] on a string of decimal
    digits with an optional minus sign. *)
Fixpoint digits (s : string) (acc : Z) : option Z :=
  match s with
  | EmptyString => Some acc
  | String a s' =>
      let n := Z.of_nat (Ascii.nat_of_ascii a) in
      if (48 <=? n) && (n <=? 57) then digits s' (10 * acc + (n - 48))
      else None
  end.

Definition int_of_decimal (s : string) : option Z :=
  match s with
  | EmptyString => None
  | String "-"%char EmptyString => None
  | String "-"%char s' => option_map Z.opp (digits s' 0)
  | _ => digits s 0
  end.

(** A logged-in client with no location configured. *)
Definition unconfigured_client : Homely :=
  mkHomely "user" "secret" (VStr "a1") 2000000000000 (VStr "r1") 3000000000000
    (VDict []) None snapshot_example 0.

(** ** Composition rules *)

Section Keeps.

Variable R : Homely -> World -> Homely -> World -> Prop.
Hypothesis R_refl : forall c w, R c w c w.
Hypothesis R_trans :
  forall c1 w1 c2 w2 c3 w3, R c1 w1 c2 w2 -> R c2 w2 c3 w3 -> R c1 w1 c3 w3.

Lemma keeps_ret {A} (a : A) : keeps R (ret a).
Proof. intros c w o c' w' H. inversion H; subst. apply R_refl. Qed.

Lemma keeps_raise {A} (e : exn) : keeps R (@raise A e).
Proof. intros c w o c' w' H. inversion H; subst. apply R_refl. Qed.

Lemma keeps_lift {A} (o : outcome A) : keeps R (lift o).
Proof. intros c w o' c' w' H. inversion H; subst. apply R_refl. Qed.

Lemma keeps_attr {A} (f : Homely -> A) : keeps R (attr f).
Proof. intros c w o c' w' H. inversion H; subst. apply R_refl. Qed.

Lemma keeps_bind {A B} (m : M A) (k : A -> M B) :
  keeps R m -> (forall a, keeps R (k a)) -> keeps R (bind m k).
Proof.
  intros Hm Hk c w o c' w' H. unfold bind in H.
  destruct (m c w) as [[[a|e] c1] w1] eqn:E.
  - eapply R_trans; [eapply Hm; exact E | eapply Hk; exact H].
  - inversion H; subst. eapply Hm; exact E.
Qed.

End Keeps.

Section RaisesOnly.

Variable P : exn -> Prop.

Lemma raises_only_ret {A} (a : A) : raises_only P (ret a).
Proof. intros c w e c' w' H. discriminate H. Qed.

Lemma raises_only_attr {A} (f : Homely -> A) : raises_only P (attr f).
Proof. intros c w e c' w' H. discriminate H. Qed.

Lemma raises_only_assign (f : Homely -> Homely) : raises_only P (assign f).
Proof. intros c w e c' w' H. discriminate H. Qed.

Lemma raises_only_now : raises_only P now.
Proof. intros c w e c' w' H. discriminate H. Qed.

Lemma raises_only_raise {A} (e : exn) : P e -> raises_only P (@raise A e).
Proof. intros He c w e' c' w' H. inversion H; subst. exact He. Qed.

Lemma raises_only_lift {A} (o : outcome A) :
  (forall e, o = Raised e -> P e) -> raises_only P (lift o).
Proof. intros Ho c w e c' w' H. inversion H; subst. apply Ho. reflexivity. Qed.

Lemma raises_only_bind {A B} (m : M A) (k : A -> M B) :
  raises_only P m -> (forall a, raises_only P (k a)) ->
  raises_only P (bind m k).
Proof.
  intros Hm Hk c w e c' w' H. unfold bind in H.
  destruct (m c w) as [[[a|e1] c1] w1] eqn:E.
  - eapply Hk; exact H.
  - inversion H; subst. eapply Hm; exact E.
Qed.

End RaisesOnly.

Lemma request_eq (u : string) (d : req_data) (rt : string)
    (c : Homely) (w : World) :
  rt = "GET" \/ rt = "POST" ->
  _request u d rt c w
    = match server w (List.length (sent w)) with
      | Response s t => (Returned (mkResponse s t), c, log (mkRequest u d rt) w)
      | ClientError | TimeoutError =>
          (Raised TypeError, c, log (mkRequest u d rt) w)
      end.
Proof. intros [-> | ->]; reflexivity. Qed.

(** Runs the monad's plumbing and the projections of a world, and nothing
    else. *)
Ltac mstep :=
  cbv beta iota delta [bind attr lift now ret raise assign];
  cbn [clock ticks server sent tick log fst snd status text].

Ltac mstep_in H :=
  cbv beta iota delta [bind attr lift now ret raise assign] in H;
  cbn [clock ticks server sent tick log fst snd status text] in H.

Tactic Notation "mstep" "in" hyp(H) := mstep_in H.

Lemma frame_refl (c : Homely) (w : World) : frame c w c w.
Proof. unfold frame; repeat split; lia. Qed.

Lemma frame_trans c1 w1 c2 w2 c3 w3 :
  frame c1 w1 c2 w2 -> frame c2 w2 c3 w3 -> frame c1 w1 c3 w3.
Proof. unfold frame; intuition (try congruence; try lia). Qed.

Lemma frame_now : keeps frame now.
Proof.
  intros c w o c' w' H. inversion H; subst.
  unfold frame; simpl; repeat split; lia.
Qed.

Lemma frame_request (u : string) (d : req_data) (rt : string) :
  keeps frame (_request u d rt).
Proof.
  intros c w o c' w' H. unfold _request in H.
  destruct ((rt =? "GET")%string || (rt =? "POST")%string).
  - destruct (server w (List.length (sent w))); inversion H; subst;
      unfold frame; simpl; repeat split; lia.
  - inversion H; subst. apply frame_refl.
Qed.

Lemma frame_assign (f : Homely -> Homely) :
  (forall c, _location_data (f c) = _location_data c /\
             _data_refreshed (f c) = _data_refreshed c /\
             _location_id (f c) = _location_id c) ->
  keeps frame (assign f).
Proof.
  intros Hf c w o c' w' H. inversion H; subst.
  destruct (Hf c) as (H1 & H2 & H3).
  unfold frame; repeat split; auto.
Qed.

Ltac frame_step :=
  first
    [ apply (keeps_bind frame frame_trans); [ | intros ? ]
    | apply (keeps_ret frame frame_refl)
    | apply (keeps_raise frame frame_refl)
    | apply (keeps_lift frame frame_refl)
    | apply (keeps_attr frame frame_refl)
    | apply frame_now
    | apply frame_request
    | apply frame_assign; intros ?; repeat split; reflexivity
    | match goal with
      | |- keeps _ (if ?b then _ else _) => destruct b
      | |- keeps _ (match ?x with _ => _ end) => destruct x
      end ].

Lemma frame_token_expired (e : Z) : keeps frame (_token_expired e).
Proof. unfold _token_expired. repeat frame_step. Qed.

Lemma frame_access_token_valid : keeps frame _access_token_valid.
Proof.
  unfold _access_token_valid.
  repeat first [ apply frame_token_expired | frame_step ].
Qed.

Lemma frame_install_tokens (d : outcome value) : keeps frame (install_tokens d).
Proof. unfold install_tokens. repeat frame_step. Qed.

Lemma frame_refresh_access_token : keeps frame _refresh_access_token.
Proof.
  unfold _refresh_access_token.
  repeat first
    [ apply frame_token_expired | apply frame_install_tokens | frame_step ].
Qed.

Lemma frame_get_token_login : keeps frame get_token_login.
Proof.
  unfold get_token_login.
  repeat first [ apply frame_install_tokens | frame_step ].
Qed.

Lemma frame_get_token : keeps frame get_token.
Proof.
  unfold get_token.
  repeat first
    [ apply frame_token_expired | apply frame_access_token_valid
    | apply frame_refresh_access_token | apply frame_get_token_login
    | frame_step ].
Qed.

(** ** Token manager: the short-circuit on a valid token *)

Lemma access_token_valid_true (c : Homely) (w : World) :
  _access_token c <> VNone ->
  clock w (ticks w) <= _access_token_expire c ->
  _access_token_valid c w = (Returned true, c, tick w).
Proof.
  intros Htok Hexp.
  unfold _access_token_valid, _token_expired, bind, attr, now, ret.
  destruct (_access_token c); try congruence; simpl;
    destruct (Z.ltb_spec (_access_token_expire c) (clock w (ticks w)));
    try lia; reflexivity.
Qed.

Lemma access_token_valid_None (c : Homely) (w : World) :
  _access_token c = VNone ->
  _access_token_valid c w = (Returned false, c, w).
Proof.
  intros Htok.
  unfold _access_token_valid, bind, attr, ret. rewrite Htok. reflexivity.
Qed.

Lemma access_token_valid_expired (c : Homely) (w : World) :
  _access_token c <> VNone ->
  _access_token_expire c < clock w (ticks w) ->
  _access_token_valid c w = (Returned false, c, tick w).
Proof.
  intros Htok Hexp.
  unfold _access_token_valid, _token_expired, bind, attr, now, ret.
  destruct (_access_token c); try congruence; simpl;
    destruct (Z.ltb_spec (_access_token_expire c) (clock w (ticks w)));
    try lia; reflexivity.
Qed.

Lemma get_token_when_valid (c : Homely) (w : World) :
  _access_token c <> VNone ->
  clock w (ticks w) <= _access_token_expire c ->
  get_token c w = (Returned true, c, tick w).
Proof.
  intros Htok Hexp. unfold get_token, bind.
  rewrite (access_token_valid_true c w Htok Hexp). reflexivity.
Qed.

(** C6: with an access token that is present and unexpired at the reading of
    the clock, [get_token] returns [True] at once: the client is unchanged and
    no request is added to the log of the session. *)
Theorem get_token_valid_no_network (c : Homely) (w : World) :
  _access_token c <> VNone ->
  clock w (ticks w) <= _access_token_expire c ->
  get_token c w = (Returned true, c, tick w) /\ sent (tick w) = sent w.
Proof.
  intros Htok Hexp. split; [|reflexivity].
  apply get_token_when_valid; assumption.
Qed.

(** C7: without a valid access token (absent, or expired at the reading of
    the clock) [get_users_locations] raises [LoginError], the class this client
    raises for every authorization failure, and the log of the session is the
    one it started with. *)
Theorem get_users_locations_requires_token (c : Homely) (w : World) :
  _access_token c = VNone \/ _access_token_expire c < clock w (ticks w) ->
  exists w',
    get_users_locations c w
      = (Raised (LoginError "No valid access token"), c, w')
    /\ sent w' = sent w.
Proof.
  intros H.
  destruct (is_None (_access_token c)) eqn:E.
  - exists w. unfold get_users_locations, bind.
    rewrite access_token_valid_None by (destruct (_access_token c); [reflexivity|discriminate..]).
    split; reflexivity.
  - exists (tick w). unfold get_users_locations, bind.
    rewrite access_token_valid_expired.
    + split; reflexivity.
    + intros Hn. rewrite Hn in E. discriminate.
    + destruct H as [H|H]; [rewrite H in E; discriminate | exact H].
Qed.

Lemma access_token_valid_cases (c : Homely) (w : World) :
  (_access_token_valid c w = (Returned true, c, tick w)
   /\ _access_token c <> VNone
   /\ clock w (ticks w) <= _access_token_expire c)
  \/ (_access_token_valid c w = (Returned false, c, tick w)
      /\ _access_token c <> VNone
      /\ _access_token_expire c < clock w (ticks w))
  \/ (_access_token_valid c w = (Returned false, c, w)
      /\ _access_token c = VNone).
Proof.
  destruct (is_None (_access_token c)) eqn:E.
  - right; right.
    assert (_access_token c = VNone)
      by (destruct (_access_token c); [reflexivity|discriminate..]).
    split; [apply access_token_valid_None|]; assumption.
  - assert (_access_token c <> VNone)
      by (intros Hn; rewrite Hn in E; discriminate).
    destruct (Z.ltb_spec (_access_token_expire c) (clock w (ticks w))).
    + right; left. split; [apply access_token_valid_expired|]; auto.
    + left. split; [apply access_token_valid_true|]; auto.
Qed.

(** ** Token manager: the login request *)

(** C4: what the code does on the input the claim is about.  A login
    answered with a status below 400 other than 200 and 201 (202, say) passes
    the three status tests with [resp_data] never bound, and the first read of
    it raises [UnboundLocalError]: [get_token] does not return [False] as
    [_refresh_access_token] and [_get_location_data] do on such a status, it
    raises no error of the module, and the tokens are untouched. *)
Theorem login_unlisted_status_unbound (c : Homely) (w : World)
    (s : Z) (body : option value) :
  server w (List.length (sent w)) = Response s body ->
  s < 400 ->
  in_200_201 s = false ->
  get_token_login c w
    = (Raised (UnboundLocalError "resp_data"), c, log (login_request c) w)
  /\ (_access_token c = VNone -> _refresh_token c = VNone ->
      get_token c w
        = (Raised (UnboundLocalError "resp_data"), c, log (login_request c) w)).
Proof.
  intros Hs Hlt H2xx.
  assert (Hlogin : get_token_login c w
    = (Raised (UnboundLocalError "resp_data"), c, log (login_request c) w)).
  { unfold get_token_login, bind, attr, _request. simpl. rewrite Hs. simpl.
    destruct (Z.leb_spec 500 s); [lia|].
    destruct (Z.leb_spec 400 s); [lia|].
    rewrite H2xx. reflexivity. }
  split; [exact Hlogin|].
  intros Ha Hr. unfold get_token, bind.
  rewrite (access_token_valid_None c w Ha).
  unfold attr. rewrite Hr. simpl. exact Hlogin.
Qed.

(** ** Location cache: the fetch *)

(** C3, as amended: when the token step has returned and the throttle lets
    the fetch through, a status 400 raises [LoginError("Invalid location ID")]
    (the module's [InvalidArgument] is not used for it), and the cached
    snapshot and its timestamp are what they were before the call. *)
Theorem location_data_400_keeps_cache (location_id : option string)
    (c : Homely) (w : World) (b : bool) (c1 : Homely) (w1 : World)
    (next_refresh : Z) (body : option value) :
  location_id <> None \/ _location_id c <> None ->
  get_token c w = (Returned b, c1, w1) ->
  add_seconds (_data_refreshed c1) REFRESH_LIMIT = Returned next_refresh ->
  next_refresh <= clock w1 (ticks w1) ->
  server w1 (List.length (sent w1)) = Response 400 body ->
  _get_location_data location_id c w
    = (Raised (LoginError "Invalid location ID"), c1,
       log (location_request c1 location_id) (tick w1))
  /\ _location_data c1 = _location_data c
  /\ _data_refreshed c1 = _data_refreshed c.
Proof.
  intros Hloc Htok Hnext Hdue Hs.
  destruct (frame_get_token _ _ _ _ _ Htok) as (Hd & Hr & Hid & _).
  split; [|split; assumption].
  unfold _get_location_data.
  unfold bind at 1. unfold attr at 1.
  assert (Hrest : forall k : M bool,
    (get_token ;; k) c w = k c1 w1)
    by (intros k; unfold bind; rewrite Htok; reflexivity).
  destruct (_location_id c) as [own|] eqn:Eown;
    destruct location_id as [l|]; try (destruct Hloc; congruence);
    rewrite Hrest; mstep; rewrite Hnext; mstep;
    destruct (Z.ltb_spec (clock w1 (ticks w1)) next_refresh); try lia;
    rewrite request_eq by (left; reflexivity); mstep;
    rewrite Hs; mstep; unfold location_request; try rewrite Hid; reflexivity.
Qed.

Lemma bind_eq {A B} (m : M A) (k : A -> M B) (c : Homely) (w : World)
    (o : outcome A) (c1 : Homely) (w1 : World) :
  m c w = (o, c1, w1) ->
  bind m k c w
    = match o with
      | Returned a => k a c1 w1
      | Raised e => (Raised e, c1, w1)
      end.
Proof. intros H. unfold bind. rewrite H. destruct o; reflexivity. Qed.

Lemma is_None_false (v : value) : is_None v = false -> v <> VNone.
Proof. intros H E. rewrite E in H. discriminate. Qed.

Lemma is_None_true (v : value) : is_None v = true -> v = VNone.
Proof. destruct v; [reflexivity|discriminate..]. Qed.

(** ** Token manager: the refresh exchange *)

Lemma token_expired_eq (e : Z) (c : Homely) (w : World) :
  _token_expired e c w = (Returned (e <? clock w (ticks w)), c, tick w).
Proof.
  unfold _token_expired. mstep. destruct (e <? clock w (ticks w)); reflexivity.
Qed.

Lemma refresh_access_token_eq (c : Homely) (w : World) :
  _refresh_token c <> VNone ->
  clock w (ticks w) <= _refresh_token_expire c ->
  _refresh_access_token c w
  = match server w (List.length (sent w)) with
    | Response s t =>
        (if 500 <=? s then raise (ResponseError s) else
         if s =? 400 then raise (LoginError "Invalid refresh token") else
         if 401 <=? s then raise (LoginError "Unauthorized") else
         if in_200_201 s then
           resp_data <- lift (json_loads (mkResponse s t)) ;;
           install_tokens (Returned resp_data) ;;
           ret true
         else ret false) c (log (refresh_request c) (tick w))
    | ClientError | TimeoutError =>
        (Raised TypeError, c, log (refresh_request c) (tick w))
    end.
Proof.
  intros Hrt Hexp.
  assert (Hguard : forall k : bool -> M bool,
    (no_token <- (if is_None (_refresh_token c) then ret true
                  else e <- attr _refresh_token_expire ;; _token_expired e) ;;
     k no_token) c w = k false c (tick w)).
  { intros k. destruct (_refresh_token c); try congruence;
      cbn [is_None]; mstep; rewrite token_expired_eq; mstep;
      destruct (Z.ltb_spec (_refresh_token_expire c) (clock w (ticks w)));
      try lia; reflexivity. }
  unfold _refresh_access_token; unfold bind at 1; unfold attr at 1.
  rewrite Hguard. mstep. rewrite request_eq by (right; reflexivity). mstep.
  destruct (server w (List.length (sent w))); reflexivity.
Qed.

Lemma silent_refl (c : Homely) (w : World) : silent c w c w.
Proof. reflexivity. Qed.

Lemma silent_trans (c1 : Homely) (w1 : World) (c2 : Homely) (w2 : World)
    (c3 : Homely) (w3 : World) :
  silent c1 w1 c2 w2 -> silent c2 w2 c3 w3 -> silent c1 w1 c3 w3.
Proof. unfold silent. intros H1 H2. congruence. Qed.

Lemma silent_now : keeps silent now.
Proof. intros c w o c' w' H. inversion H; subst. reflexivity. Qed.

Lemma silent_assign (f : Homely -> Homely) : keeps silent (assign f).
Proof. intros c w o c' w' H. inversion H; subst. reflexivity. Qed.

Ltac silent_step :=
  first
    [ apply (keeps_bind silent silent_trans); [ | intros ? ]
    | apply (keeps_ret silent silent_refl)
    | apply (keeps_raise silent silent_refl)
    | apply (keeps_lift silent silent_refl)
    | apply (keeps_attr silent silent_refl)
    | apply silent_now
    | apply silent_assign
    | match goal with
      | |- keeps _ (if ?b then _ else _) => destruct b
      | |- keeps _ (match ?x with _ => _ end) => destruct x
      end ].

Lemma silent_install_tokens (d : outcome value) :
  keeps silent (install_tokens d).
Proof. unfold install_tokens. repeat silent_step. Qed.

(** However it ends, [_refresh_access_token] makes no request or the one
    refresh request. *)
Lemma refresh_access_token_sent (c : Homely) (w : World)
    (o : outcome bool) (c2 : Homely) (w2 : World) :
  _refresh_access_token c w = (o, c2, w2) ->
  sent w2 = sent w \/ sent w2 = sent w ++ [refresh_request c].
Proof.
  intros H.
  destruct (is_None (_refresh_token c)) eqn:Ert.
  - left. unfold _refresh_access_token in H.
    erewrite bind_eq in H by reflexivity. cbv beta iota in H.
    rewrite Ert in H. mstep in H. inversion H; reflexivity.
  - destruct (Z.ltb_spec (_refresh_token_expire c) (clock w (ticks w)))
      as [Hexp|Hexp].
    + left. unfold _refresh_access_token in H.
      erewrite bind_eq in H by reflexivity. cbv beta iota in H.
      rewrite Ert in H.
      erewrite bind_eq in H
        by (erewrite bind_eq by reflexivity; cbv beta iota;
            apply token_expired_eq).
      cbv beta iota in H.
      destruct (Z.ltb_spec (_refresh_token_expire c) (clock w (ticks w)));
        [|lia].
      inversion H; reflexivity.
    + right.
      rewrite refresh_access_token_eq in H
        by (first [apply is_None_false; exact Ert | exact Hexp]).
      destruct (server w (List.length (sent w))) as [s t| |];
        [|inversion H; reflexivity..].
      revert H.
      match goal with
      | |- ?m _ _ = _ -> _ => assert (Hm : keeps silent m)
      end.
      { repeat first [ apply silent_install_tokens | silent_step ]. }
      intros H. apply Hm in H. exact H.
Qed.

(** C1, as amended: with an invalid access token and a refresh token that is
    present and unexpired when [get_token] tests it, whatever
    [_refresh_access_token] raises is raised by [get_token], in the state the
    refresh left and with no login attempted: the requests made are none or
    the one refresh.  So a refresh answered 400 raises
    [LoginError("Invalid refresh token")], one answered 401 to 499 raises
    [LoginError("Unauthorized")], one answered 500 and above raises
    [ResponseError], and one that does not get through raises [TypeError].
    The full login is reached only when [_refresh_access_token] returns
    without raising and the re-check finds the access token still not valid,
    as for a status below 400 other than 200 and 201; when the re-check finds
    it valid, [get_token] returns [True] without a login. *)
Theorem refresh_rejection_propagates (c : Homely) (w w1 : World) :
  _access_token_valid c w = (Returned false, c, w1) ->
  _refresh_token c <> VNone ->
  clock w1 (ticks w1) <= _refresh_token_expire c ->
  (forall e c2 w2,
     _refresh_access_token c (tick w1) = (Raised e, c2, w2) ->
     get_token c w = (Raised e, c2, w2)
     /\ (sent w2 = sent w \/ sent w2 = sent w ++ [refresh_request c]))
  /\ (forall b c2 w2 v w3,
        _refresh_access_token c (tick w1) = (Returned b, c2, w2) ->
        _access_token_valid c2 w2 = (Returned v, c2, w3) ->
        get_token c w
        = if v then (Returned true, c2, w3) else get_token_login c2 w3)
  /\ (clock w1 (S (ticks w1)) <= _refresh_token_expire c ->
      let w2 := log (refresh_request c) (tick (tick w1)) in
      sent w2 = sent w ++ [refresh_request c]
      /\ (forall s body,
            server w1 (List.length (sent w1)) = Response s body ->
            (s = 400 ->
             get_token c w
               = (Raised (LoginError "Invalid refresh token"), c, w2))
            /\ (401 <= s < 500 ->
                get_token c w = (Raised (LoginError "Unauthorized"), c, w2))
            /\ (500 <= s ->
                get_token c w = (Raised (ResponseError s), c, w2))
            /\ (s < 400 -> in_200_201 s = false ->
                get_token c w
                  = (valid <- _access_token_valid ;;
                     if valid then ret true else get_token_login) c w2))
      /\ (server w1 (List.length (sent w1)) = ClientError
          \/ server w1 (List.length (sent w1)) = TimeoutError ->
          get_token c w = (Raised TypeError, c, w2))).
Proof.
  intros Hinv Hrt Hexp1.
  assert (Hsent1 : sent w1 = sent w).
  { destruct (access_token_valid_cases c w) as [(E & _)|[(E & _)|(E & _)]];
      rewrite E in Hinv; inversion Hinv; reflexivity. }
  assert (Hhead : forall k : bool -> M bool,
    (valid <- _access_token_valid ;;
     if valid then ret true else
     rt <- attr _refresh_token ;;
     try_refresh <- (if is_None rt then ret false
                     else e <- attr _refresh_token_expire ;;
                          expired <- _token_expired e ;;
                          ret (negb expired)) ;;
     k try_refresh) c w = k true c (tick w1)).
  { intros k. unfold bind at 1. rewrite Hinv. mstep.
    destruct (_refresh_token c); try congruence;
      cbn [is_None]; mstep; rewrite token_expired_eq; mstep;
      destruct (Z.ltb_spec (_refresh_token_expire c) (clock w1 (ticks w1)));
      try lia; reflexivity. }
  assert (Hraise : forall e c2 w2,
    _refresh_access_token c (tick w1) = (Raised e, c2, w2) ->
    get_token c w = (Raised e, c2, w2)).
  { intros e c2 w2 Hr. unfold get_token. rewrite Hhead.
    unfold bind. rewrite Hr. reflexivity. }
  assert (Hreturn : forall b c2 w2,
    _refresh_access_token c (tick w1) = (Returned b, c2, w2) ->
    get_token c w
    = (valid <- _access_token_valid ;;
       if valid then ret true else get_token_login) c2 w2).
  { intros b c2 w2 Hr. unfold get_token. rewrite Hhead.
    unfold bind at 1. unfold bind at 1. rewrite Hr.
    unfold bind.
    destruct (_access_token_valid c2 w2) as [[[[|]|e] c'] w']; reflexivity. }
  split; [|split].
  - intros e c2 w2 Hr. split; [exact (Hraise e c2 w2 Hr)|].
    destruct (refresh_access_token_sent _ _ _ _ _ Hr) as [S|S];
      cbn [sent tick] in S; rewrite Hsent1 in S; [left|right]; exact S.
  - intros b c2 w2 v w3 Hr Hv.
    rewrite (Hreturn b c2 w2 Hr). unfold bind. rewrite Hv.
    destruct v; reflexivity.
  - intros Hexp2 w2.
    pose proof (refresh_access_token_eq c (tick w1) Hrt Hexp2) as Heq.
    cbn [clock ticks server sent tick] in Heq. fold w2 in Heq.
    split; [|split].
    + unfold w2. cbn [sent log tick]. rewrite Hsent1. reflexivity.
    + intros s body Hs. rewrite Hs in Heq. repeat split.
      * intros E. subst s. apply Hraise. rewrite Heq. reflexivity.
      * intros [H401 H500]. apply Hraise. rewrite Heq.
        destruct (Z.leb_spec 500 s); [lia|].
        destruct (Z.eqb_spec s 400); [lia|].
        destruct (Z.leb_spec 401 s); [reflexivity|lia].
      * intros H500. apply Hraise. rewrite Heq.
        destruct (Z.leb_spec 500 s); [reflexivity|lia].
      * intros Hlt H2xx. apply (Hreturn false). rewrite Heq.
        destruct (Z.leb_spec 500 s); [lia|].
        destruct (Z.eqb_spec s 400); [lia|].
        destruct (Z.leb_spec 401 s); [lia|].
        rewrite H2xx. reflexivity.
    + intros [Hs|Hs]; apply Hraise; rewrite Heq, Hs; reflexivity.
Qed.

(** ** Token manager: where [TokenExpiredError] can come from *)

Lemma other_error_pure {A} (o : outcome A) :
  (forall e, o = Raised e ->
     e = KeyError "access_token" \/ e = KeyError "expires_in"
     \/ e = KeyError "refresh_token" \/ e = KeyError "refresh_expires_in"
     \/ e = TypeError \/ e = ValueError \/ e = OverflowError
     \/ e = JSONDecodeError \/ e = UnboundLocalError "resp_data") ->
  raises_only other_error (lift o).
Proof.
  intros H. apply raises_only_lift. intros e He.
  destruct (H e He) as [->|[->|[->|[->|[->|[->|[->|[->| ->]]]]]]]];
    reflexivity.
Qed.

Lemma subscript_raises (d : value) (k : string) (e : exn) :
  subscript d k = Raised e -> e = KeyError k \/ e = TypeError.
Proof.
  unfold subscript. destruct d; try (intros H; inversion H; auto).
  destruct (lookup k d); inversion H; auto.
Qed.

Lemma int_of_float_truncated (f : spec_float) (n : Z) :
  int_of_float f = Returned n -> truncated f n.
Proof.
  destruct f as [s|s| |s m e]; cbn [int_of_float truncated];
    intros H; inversion H; [reflexivity|].
  assert (Hpow : e < 0 -> 0 < 2 ^ (- e))
    by (intros; apply Z.pow_pos_nonneg; lia).
  destruct (Z.leb_spec 0 e) as [He|He].
  - exists (Z.pos m * 2 ^ e).
    assert (0 <= Z.pos m * 2 ^ e)
      by (apply Z.mul_nonneg_nonneg; [lia|apply Z.pow_nonneg; lia]).
    split; [reflexivity|]. split; [assumption|]. split; [reflexivity|lia].
  - specialize (Hpow He).
    exists (Z.pos m / 2 ^ (- e)). split; [reflexivity|].
    split; [apply Z.div_pos; lia|]. split; [lia|]. intros _.
    pose proof (Z.mul_div_le (Z.pos m) (2 ^ (- e)) Hpow).
    pose proof (Z.mul_succ_div_gt (Z.pos m) (2 ^ (- e)) Hpow).
    lia.
Qed.

Lemma py_int_raises (v : value) (e : exn) :
  py_int v = Raised e ->
  e = TypeError \/ e = ValueError \/ e = OverflowError.
Proof.
  unfold py_int.
  destruct v as [|b|n|f|s|l|d]; try (intros H; inversion H; auto).
  - destruct f; inversion H; auto.
  - destruct (int_of_str s); inversion H; auto.
Qed.

Lemma add_seconds_raises (t n : Z) (e : exn) :
  add_seconds t n = Raised e -> e = OverflowError.
Proof.
  unfold add_seconds.
  destruct ((0 <=? t + n * US_PER_SECOND)
            && (t + n * US_PER_SECOND <=? DATETIME_MAX));
    intros H; inversion H; auto.
Qed.

Lemma json_loads_raises (r : response) (e : exn) :
  json_loads r = Raised e -> e = JSONDecodeError.
Proof.
  unfold json_loads. destruct (text r); intros H; inversion H; auto.
Qed.

Lemma read_local_raises (n : string) (x : option value) (e : exn) :
  read_local n x = Raised e -> e = UnboundLocalError n.
Proof.
  unfold read_local. destruct x; intros H; inversion H; auto.
Qed.

Lemma other_error_request (u : string) (d : req_data) (rt : string) :
  raises_only other_error (_request u d rt).
Proof.
  intros c w e c' w' H. unfold _request in H.
  destruct ((rt =? "GET")%string || (rt =? "POST")%string).
  - destruct (server w (List.length (sent w))); inversion H; reflexivity.
  - inversion H; reflexivity.
Qed.

Ltac other_error_pure_step :=
  apply other_error_pure; intros ? He;
  first
    [ apply subscript_raises in He; destruct He as [-> | ->]; tauto
    | apply py_int_raises in He; destruct He as [-> | [-> | ->]]; tauto
    | apply add_seconds_raises in He; subst; tauto
    | apply json_loads_raises in He; subst; tauto
    | apply read_local_raises in He; subst; tauto
    | inversion He; subst; tauto ].

Ltac other_error_step :=
  first
    [ apply raises_only_bind; [ | intros ? ]
    | apply raises_only_ret
    | apply raises_only_attr
    | apply raises_only_assign
    | apply raises_only_now
    | apply raises_only_raise; reflexivity
    | apply other_error_request
    | other_error_pure_step
    | match goal with
      | |- raises_only _ (if ?b then _ else _) => destruct b
      | |- raises_only _ (match ?x with _ => _ end) => destruct x
      end ].

Lemma other_error_token_expired (e : Z) :
  raises_only other_error (_token_expired e).
Proof. unfold _token_expired. repeat other_error_step. Qed.

Lemma other_error_access_token_valid :
  raises_only other_error _access_token_valid.
Proof.
  unfold _access_token_valid.
  repeat first [ apply other_error_token_expired | other_error_step ].
Qed.

Lemma other_error_install_tokens (d : outcome value) :
  (forall e, d = Raised e -> e = UnboundLocalError "resp_data") ->
  raises_only other_error (install_tokens d).
Proof.
  intros Hd. unfold install_tokens.
  repeat first
    [ apply other_error_pure; intros ? He; apply Hd in He; subst; tauto
    | other_error_step ].
Qed.

Lemma other_error_get_token_login : raises_only other_error get_token_login.
Proof.
  unfold get_token_login.
  repeat first
    [ apply other_error_install_tokens; apply read_local_raises
    | other_error_step ].
Qed.

Lemma refresh_access_token_raises (c : Homely) (w : World)
    (e : exn) (c' : Homely) (w' : World) :
  _refresh_access_token c w = (Raised e, c', w') ->
  other_error e
  \/ _refresh_token c = VNone
  \/ _refresh_token_expire c < clock w (ticks w).
Proof.
  intros H. unfold _refresh_access_token in H.
  erewrite bind_eq in H by reflexivity. cbv beta iota in H.
  destruct (is_None (_refresh_token c)) eqn:E.
  - right; left. apply is_None_true; assumption.
  - erewrite bind_eq in H
      by (erewrite bind_eq by reflexivity; cbv beta iota;
          apply token_expired_eq).
    cbv beta iota in H.
    destruct (Z.ltb_spec (_refresh_token_expire c) (clock w (ticks w))).
    + right; right. assumption.
    + left. revert H.
      match goal with
      | |- ?m _ _ = _ -> _ =>
          assert (Hro : raises_only other_error m)
      end.
      { repeat first
          [ apply other_error_install_tokens; intros ? He; discriminate He
          | other_error_step ]. }
      apply Hro.
Qed.

Lemma token_expired_error_inv (c : Homely) (w : World)
    (m : string) (c' : Homely) (w' : World) :
  get_token c w = (Raised (TokenExpiredError m), c', w') ->
  exists w1 : World,
    _access_token_valid c w = (Returned false, c, w1)
    /\ _refresh_token c <> VNone
    /\ clock w (ticks w1) <= _refresh_token_expire c
    /\ _refresh_token_expire c < clock w (S (ticks w1)).
Proof.
  intros H. unfold get_token in H.
  assert (Hv : exists b w1,
    _access_token_valid c w = (Returned b, c, w1) /\ clock w1 = clock w).
  { destruct (access_token_valid_cases c w) as [(E & _)|[(E & _)|(E & _)]];
      rewrite E; eexists; eexists; split; reflexivity. }
  destruct Hv as (b & w1 & Hv & Hclock).
  erewrite bind_eq in H by exact Hv. cbv beta iota in H.
  destruct b; [discriminate H|].
  erewrite bind_eq in H by reflexivity. cbv beta iota in H.
  assert (Hlogin : forall c0 w0,
    get_token_login c0 w0 = (Raised (TokenExpiredError m), c', w') -> False).
  { intros c0 w0 E. apply other_error_get_token_login in E. discriminate E. }
  destruct (is_None (_refresh_token c)) eqn:Ert.
  - erewrite bind_eq in H by reflexivity. cbv beta iota in H.
    erewrite bind_eq in H by reflexivity. cbv beta iota in H.
    exfalso; eapply Hlogin; exact H.
  - erewrite bind_eq in H
      by (erewrite bind_eq by reflexivity; cbv beta iota;
          erewrite bind_eq by apply token_expired_eq; reflexivity).
    cbv beta iota in H.
    destruct (Z.ltb_spec (_refresh_token_expire c) (clock w1 (ticks w1)))
      as [Hexp|Hexp]; cbn [negb] in H.
    + erewrite bind_eq in H by reflexivity. cbv beta iota in H.
      exfalso; eapply Hlogin; exact H.
    + unfold bind at 1 in H. unfold bind at 1 in H.
      destruct (_refresh_access_token c (tick w1)) as [[[r|e] c2] w2] eqn:Er.
      * exfalso.
        assert (Hro : raises_only other_error
          (refreshed <- _access_token_valid ;;
           if refreshed then ret true else get_token_login)).
        { repeat first
            [ apply other_error_access_token_valid
            | apply other_error_get_token_login
            | other_error_step ]. }
        apply (Hro c2 w2) in H. discriminate H.
      * inversion H; subst e c2 w2.
        apply refresh_access_token_raises in Er.
        destruct Er as [Er|[Er|Er]].
        -- discriminate Er.
        -- rewrite Er in Ert. discriminate Ert.
        -- exists w1. cbn [clock ticks tick] in Er.
           rewrite <- Hclock. repeat split; try assumption.
           apply is_None_false; assumption.
Qed.

Lemma token_expired_error_intro (c : Homely) (w w1 : World) :
  _access_token_valid c w = (Returned false, c, w1) ->
  _refresh_token c <> VNone ->
  clock w1 (ticks w1) <= _refresh_token_expire c ->
  _refresh_token_expire c < clock w1 (S (ticks w1)) ->
  get_token c w
    = (Raised (TokenExpiredError "No valid refresh-token"), c,
       tick (tick w1)).
Proof.
  intros Hinv Hrt Hle Hlt.
  destruct (is_None (_refresh_token c)) eqn:Ert;
    [apply is_None_true in Ert; congruence|].
  assert (Hr : _refresh_access_token c (tick w1)
               = (Raised (TokenExpiredError "No valid refresh-token"), c,
                  tick (tick w1))).
  { unfold _refresh_access_token.
    erewrite bind_eq by reflexivity. cbv beta iota. rewrite Ert.
    erewrite bind_eq
      by (erewrite bind_eq by reflexivity; cbv beta iota;
          apply token_expired_eq).
    cbv beta iota. cbn [clock ticks tick].
    destruct (Z.ltb_spec (_refresh_token_expire c) (clock w1 (S (ticks w1))));
      [reflexivity|lia]. }
  unfold get_token.
  erewrite bind_eq by exact Hinv. cbv beta iota.
  erewrite bind_eq by reflexivity. cbv beta iota. rewrite Ert.
  erewrite bind_eq
    by (erewrite bind_eq by reflexivity; cbv beta iota;
        erewrite bind_eq by apply token_expired_eq; reflexivity).
  cbv beta iota.
  destruct (Z.ltb_spec (_refresh_token_expire c) (clock w1 (ticks w1)));
    [lia|]. cbn [negb].
  erewrite bind_eq by (erewrite bind_eq by exact Hr; reflexivity).
  reflexivity.
Qed.

(** C10, as amended: through [get_token] the [TokenExpiredError] of
    [_refresh_access_token] is raised exactly when the access token is not
    valid, a refresh token is present, and its expiry lies between the two
    readings of the clock that the two guards take one after the other: not
    passed at the reading of [get_token]'s guard (the first reading of the
    call when there is no access token, the second otherwise), passed at the
    next reading, which is the one of [_refresh_access_token]'s guard.  The
    call then raises it with the client as it was and without a request; in
    every other case, a refresh token that expired before the call included,
    [get_token] does not raise it. *)
Theorem token_expired_error_needs_clock_step (c : Homely) (w : World) :
  let k := if is_None (_access_token c) then ticks w else S (ticks w) in
  let stepped_over :=
    (_access_token c = VNone \/ _access_token_expire c < clock w (ticks w))
    /\ _refresh_token c <> VNone
    /\ clock w k <= _refresh_token_expire c
    /\ _refresh_token_expire c < clock w (S k) in
  (stepped_over ->
   get_token c w
     = (Raised (TokenExpiredError "No valid refresh-token"), c,
        mkWorld (clock w) (S (S k)) (server w) (sent w)))
  /\ (forall (m : string) (c' : Homely) (w' : World),
        get_token c w = (Raised (TokenExpiredError m), c', w') ->
        stepped_over).
Proof.
  intros k stepped_over. unfold stepped_over, k. clear stepped_over k.
  destruct (access_token_valid_cases c w)
    as [(E & Hn & Hv)|[(E & Hn & Hx)|(E & Hnone)]].
  - split.
    + intros (Hinv & _). exfalso. destruct Hinv; [congruence|lia].
    + intros m c' w' H.
      destruct (token_expired_error_inv _ _ _ _ _ H) as (w1 & Hf & _).
      rewrite E in Hf. discriminate Hf.
  - assert (Hk : is_None (_access_token c) = false)
      by (destruct (_access_token c); [congruence|reflexivity..]).
    rewrite Hk. split.
    + intros (_ & Hrt & Hle & Hlt).
      apply (token_expired_error_intro c w (tick w) E Hrt Hle Hlt).
    + intros m c' w' H.
      destruct (token_expired_error_inv _ _ _ _ _ H)
        as (w1 & Hf & Hrt & Hle & Hlt).
      rewrite E in Hf. injection Hf as <-.
      repeat split; try assumption. right. exact Hx.
  - rewrite Hnone. cbn [is_None]. split.
    + intros (_ & Hrt & Hle & Hlt).
      apply (token_expired_error_intro c w w E Hrt Hle Hlt).
    + intros m c' w' H.
      destruct (token_expired_error_inv _ _ _ _ _ H)
        as (w1 & Hf & Hrt & Hle & Hlt).
      rewrite E in Hf. injection Hf as <-.
      repeat split; try assumption. left. reflexivity.
Qed.

(** ** Token manager: the expiry that a login or refresh installs *)

Lemma add_seconds_returns (t n r : Z) :
  add_seconds t n = Returned r ->
  r = t + n * US_PER_SECOND /\ 0 <= r <= DATETIME_MAX.
Proof.
  unfold add_seconds.
  destruct (Z.leb_spec 0 (t + n * US_PER_SECOND));
    destruct (Z.leb_spec (t + n * US_PER_SECOND) DATETIME_MAX);
    cbn [andb]; intros E; inversion E; subst; split; try reflexivity; lia.
Qed.

Ltac destruct_innermost x :=
  first
    [ match x with
      | context [match ?y with _ => _ end] => destruct_innermost y
      end
    | destruct x eqn:? ].

Ltac split_run H :=
  repeat match type of H with
         | context [match ?x with _ => _ end] =>
             destruct_innermost x; try discriminate H
         end.

Lemma install_tokens_returns (d : value) (c : Homely) (w : World)
    (u : unit) (c' : Homely) (w' : World) :
  install_tokens (Returned d) c w = (Returned u, c', w') ->
  tokens_installed (clock w (ticks w)) d c'.
Proof.
  intros H. unfold install_tokens in H. mstep in H.
  split_run H. inversion H; subst.
  match goal with
  | E : add_seconds (clock w (ticks w)) _ = Returned _ |- _ =>
      apply add_seconds_returns in E; destruct E as [E _]
  end.
  do 3 eexists. repeat split; try eassumption; try reflexivity.
Qed.

Lemma valid_until_present (c' : Homely) :
  _access_token c' <> VNone -> valid_until c'.
Proof.
  intros Htok w2. unfold US_PER_MILLISECOND. split; intros Ht.
  - apply access_token_valid_true; [assumption|lia].
  - apply access_token_valid_expired; [assumption|lia].
Qed.

Lemma installed_expiry_facts (t : Z) (d : value) (c' : Homely) :
  tokens_installed t d c' ->
  (_access_token c' <> VNone -> valid_until c')
  /\ (_access_token c' = VNone ->
      forall w2 : World,
        _access_token_valid c' w2 = (Returned false, c', w2))
  /\ (forall f : spec_float,
        subscript d "expires_in" = Returned (VFloat f) ->
        exists n : Z,
          truncated f n
          /\ _access_token_expire c'
             = t + (n - TOKEN_EXPIRE_MARGIN) * US_PER_SECOND).
Proof.
  intros (tok & v & n & _ & _ & Hsub & Hint & Hexp).
  split; [apply valid_until_present|split].
  - intros Hnone w2. apply access_token_valid_None. exact Hnone.
  - intros f Hf. rewrite Hf in Hsub. inversion Hsub; subst v.
    exists n. split; [|exact Hexp].
    apply int_of_float_truncated. exact Hint.
Qed.

(** C5, as amended: when the full login or the refresh (the flag says which)
    returns [True], the response was a document [d] whose [expires_in]
    converts to an integer [n] by [int()], and the stored expiry of the
    access token is the reading of the clock plus [n] minus the margin of 20
    seconds; for a float [expires_in], [n] is the float with its fraction
    dropped.  When the stored access token is not [None], the token is valid
    one millisecond before that expiry and not valid one millisecond after
    it; when the document had [null] for [access_token], the call has
    returned [True] all the same and the token is valid at no time. *)
Theorem expiry_after_login_or_refresh (via_refresh : bool)
    (c : Homely) (w : World) (c' : Homely) (w' : World) :
  (if via_refresh then _refresh_access_token c w else get_token_login c w)
    = (Returned true, c', w') ->
  exists (s : Z) (d : value),
    let t := clock w (if via_refresh then S (ticks w) else ticks w) in
    server w (List.length (sent w)) = Response s (Some d)
    /\ tokens_installed t d c'
    /\ (_access_token c' <> VNone -> valid_until c')
    /\ (_access_token c' = VNone ->
        forall w2 : World,
          _access_token_valid c' w2 = (Returned false, c', w2))
    /\ (forall f : spec_float,
          subscript d "expires_in" = Returned (VFloat f) ->
          exists n : Z,
            truncated f n
            /\ _access_token_expire c'
               = t + (n - TOKEN_EXPIRE_MARGIN) * US_PER_SECOND).
Proof.
  intros H. destruct via_refresh.
  2:{ unfold get_token_login in H.
    erewrite bind_eq in H by reflexivity. cbv beta iota in H.
    erewrite bind_eq in H by reflexivity. cbv beta iota in H.
    unfold bind at 1 in H. rewrite request_eq in H by (right; reflexivity).
    destruct (server w (List.length (sent w))) as [s body| |];
      try discriminate H.
    cbv beta iota in H. cbn [status] in H.
    destruct (500 <=? s); [discriminate H|].
    destruct (400 <=? s); [discriminate H|].
    destruct (in_200_201 s).
    + unfold json_loads in H at 1. cbn [text] in H.
      destruct body as [d|]; mstep in H; [|discriminate H].
      cbn [read_local] in H.
      match type of H with
      | context [install_tokens (Returned d) c ?w0] =>
          destruct (install_tokens (Returned d) c w0)
            as [[[u|e] c2] w2] eqn:E; [|discriminate H]
      end.
      inversion H; subst c2 w2.
      apply install_tokens_returns in E.
      exists s, d.
      split; [reflexivity|split; [exact E|]].
      exact (installed_expiry_facts _ _ _ E).
    + mstep in H. cbn [read_local] in H. unfold install_tokens in H.
      mstep in H. discriminate H. }
  - unfold _refresh_access_token in H.
    erewrite bind_eq in H by reflexivity. cbv beta iota in H.
    destruct (is_None (_refresh_token c)) eqn:Ert.
    + mstep in H. discriminate H.
    + erewrite bind_eq in H
        by (erewrite bind_eq by reflexivity; cbv beta iota;
            apply token_expired_eq).
      cbv beta iota in H.
      destruct (_refresh_token_expire c <? clock w (ticks w));
        [discriminate H|].
      erewrite bind_eq in H by reflexivity. cbv beta iota in H.
      unfold bind at 1 in H. rewrite request_eq in H by (right; reflexivity).
      cbn [clock ticks server sent tick] in H.
      destruct (server w (List.length (sent w))) as [s body| |];
        try discriminate H.
      cbv beta iota in H. cbn [status] in H.
      destruct (500 <=? s); [discriminate H|].
      destruct (s =? 400); [discriminate H|].
      destruct (401 <=? s); [discriminate H|].
      destruct (in_200_201 s); [|discriminate H].
      unfold json_loads in H at 1. cbn [text] in H.
      destruct body as [d|]; mstep in H; [|discriminate H].
      match type of H with
      | context [install_tokens (Returned d) c ?w0] =>
          destruct (install_tokens (Returned d) c w0)
            as [[[u|e] c2] w2] eqn:E; [|discriminate H]
      end.
      inversion H; subst c2 w2.
      apply install_tokens_returns in E.
      exists s, d.
      split; [reflexivity|split; [exact E|]].
      exact (installed_expiry_facts _ _ _ E).
Qed.

(** ** Location cache: token step first, throttle second *)

Lemma get_location_data_token_raises (location_id : option string)
    (c : Homely) (w : World) (e : exn) (c1 : Homely) (w1 : World) :
  location_id <> None \/ _location_id c <> None ->
  get_token c w = (Raised e, c1, w1) ->
  _get_location_data location_id c w = (Raised e, c1, w1).
Proof.
  intros Hloc Htok. unfold _get_location_data.
  erewrite bind_eq by reflexivity. cbv beta iota.
  destruct (_location_id c); destruct location_id;
    try (destruct Hloc; congruence);
    erewrite bind_eq by exact Htok; reflexivity.
Qed.

Lemma get_location_data_throttled (location_id : option string)
    (c : Homely) (w : World) (b : bool) (c1 : Homely) (w1 : World)
    (next_refresh : Z) :
  location_id <> None \/ _location_id c <> None ->
  get_token c w = (Returned b, c1, w1) ->
  add_seconds (_data_refreshed c1) REFRESH_LIMIT = Returned next_refresh ->
  clock w1 (ticks w1) < next_refresh ->
  _get_location_data location_id c w = (Returned true, c1, tick w1).
Proof.
  intros Hloc Htok Hnext Hnow. unfold _get_location_data.
  erewrite bind_eq by reflexivity. cbv beta iota.
  destruct (_location_id c); destruct location_id;
    try (destruct Hloc; congruence);
    erewrite bind_eq by exact Htok; mstep; rewrite Hnext; mstep;
    destruct (Z.ltb_spec (clock w1 (ticks w1)) next_refresh);
    try lia; reflexivity.
Qed.

Lemma get_location_data_fetched (location_id : option string)
    (c : Homely) (w : World) (b : bool) (c1 : Homely) (w1 : World)
    (next_refresh s : Z) (d : value) :
  location_id <> None \/ _location_id c <> None ->
  get_token c w = (Returned b, c1, w1) ->
  add_seconds (_data_refreshed c1) REFRESH_LIMIT = Returned next_refresh ->
  next_refresh <= clock w1 (ticks w1) ->
  server w1 (List.length (sent w1)) = Response s (Some d) ->
  in_200_201 s = true ->
  _get_location_data location_id c w
    = (Returned true,
       set_data_refreshed (clock w1 (S (ticks w1))) (set_location_data d c1),
       tick (log (location_request c1 location_id) (tick w1))).
Proof.
  intros Hloc Htok Hnext Hdue Hs H2xx.
  destruct (frame_get_token _ _ _ _ _ Htok) as (_ & _ & Hid & _).
  assert (Hst : (500 <=? s) = false /\ (s =? 400) = false
                /\ (401 <=? s) = false).
  { unfold in_200_201 in H2xx. apply orb_prop in H2xx.
    destruct H2xx as [E|E]; apply Z.eqb_eq in E; subst s; repeat split. }
  destruct Hst as (H500 & H400 & H401).
  unfold _get_location_data.
  erewrite bind_eq by reflexivity. cbv beta iota.
  destruct (_location_id c) eqn:Eown; destruct location_id;
    try (destruct Hloc; congruence);
    erewrite bind_eq by exact Htok; mstep; rewrite Hnext; mstep;
    destruct (Z.ltb_spec (clock w1 (ticks w1)) next_refresh); try lia;
    rewrite request_eq by (left; reflexivity); mstep; rewrite Hs; mstep;
    rewrite H500, H400, H401, H2xx; unfold json_loads; mstep;
    unfold location_request; try rewrite Hid; reflexivity.
Qed.

(** C2, as amended: when the access token is valid at both calls, the first
    [get_data] is due for a fetch that is answered 200 or 201 with a document
    [d], and the second call reads the clock less than 10 seconds after the
    timestamp of that fetch, both calls return [d], the second leaves the
    client as it was, and the two calls together make one request, the fetch
    of the first. *)
Theorem get_data_twice_within_throttle (loc1 loc2 : option string)
    (c : Homely) (w : World) (s : Z) (d : value) (due window : Z) :
  loc1 <> None \/ _location_id c <> None ->
  loc2 <> None \/ _location_id c <> None ->
  _access_token c <> VNone ->
  clock w (ticks w) <= _access_token_expire c ->
  add_seconds (_data_refreshed c) REFRESH_LIMIT = Returned due ->
  due <= clock w (ticks w + 1) ->
  server w (List.length (sent w)) = Response s (Some d) ->
  in_200_201 s = true ->
  clock w (ticks w + 3) <= _access_token_expire c ->
  add_seconds (clock w (ticks w + 2)) REFRESH_LIMIT = Returned window ->
  clock w (ticks w + 4) < window ->
  exists (c1 : Homely) (w1 w2 : World),
    get_data loc1 c w = (Returned d, c1, w1)
    /\ get_data loc2 c1 w1 = (Returned d, c1, w2)
    /\ sent w2 = sent w ++ [location_request c loc1].
Proof.
  intros Hloc1 Hloc2 Htok Hexp1 Hdue Hdue' Hs H2xx Hexp2 Hwin Hwin'.
  replace (ticks w + 1)%nat with (S (ticks w)) in Hdue' by lia.
  replace (ticks w + 2)%nat with (S (S (ticks w))) in Hwin by lia.
  replace (ticks w + 3)%nat with (S (S (S (ticks w)))) in Hexp2 by lia.
  replace (ticks w + 4)%nat with (S (S (S (S (ticks w))))) in Hwin' by lia.
  pose proof (get_token_when_valid c w Htok Hexp1) as Htok1.
  pose proof (get_location_data_fetched loc1 c w true c (tick w) due s d
                Hloc1 Htok1 Hdue Hdue' Hs H2xx) as Hfetch.
  cbn [clock ticks server sent tick log] in Hfetch.
  set (c1 := set_data_refreshed (clock w (S (S (ticks w))))
               (set_location_data d c)) in *.
  set (w1 := tick (log (location_request c loc1) (tick (tick w)))) in *.
  assert (Htok2 : get_token c1 w1 = (Returned true, c1, tick w1)).
  { apply get_token_when_valid; [exact Htok|exact Hexp2]. }
  pose proof (get_location_data_throttled loc2 c1 w1 true c1 (tick w1) window
                Hloc2 Htok2 Hwin Hwin') as Hhit.
  exists c1, w1, (tick (tick w1)). repeat split.
  - unfold get_data. erewrite bind_eq by exact Hfetch. reflexivity.
  - unfold get_data. erewrite bind_eq by exact Hhit. reflexivity.
Qed.

(** C9: [get_data], [get_system_state] and [get_devices] run [get_token]
    before the throttle test.  Whatever [get_token] raises leaves the call,
    and when [get_token] returns and the throttle holds the call is answered
    from the cached snapshot with the requests of the token step already
    made: there are calls inside the 10-second window that send a login
    and still answer from the cache, and calls inside the window that raise
    the [LoginError] or the [ResponseError] of the login. *)
Theorem token_step_precedes_throttle (location_id : option string)
    (c : Homely) (w : World) :
  location_id <> None \/ _location_id c <> None ->
  (forall e c1 w1,
     get_token c w = (Raised e, c1, w1) ->
     get_data location_id c w = (Raised e, c1, w1)
     /\ get_system_state location_id c w = (Raised e, c1, w1)
     /\ get_devices location_id c w = (Raised e, c1, w1))
  /\ (forall b c1 w1 next_refresh,
       get_token c w = (Returned b, c1, w1) ->
       add_seconds (_data_refreshed c1) REFRESH_LIMIT = Returned next_refresh ->
       clock w1 (ticks w1) < next_refresh ->
       get_data location_id c w = (Returned (_location_data c), c1, tick w1)
       /\ get_system_state location_id c w
          = (dict_get (_location_data c) "alarmState" (VStr "UNKNOWN"),
             c1, tick w1)
       /\ get_devices location_id c w
          = (dict_get (_location_data c) "devices" (VList []), c1, tick w1))
  /\ (exists c0 w0 c' w',
       (forall k, clock w0 k
                  < _data_refreshed c0 + REFRESH_LIMIT * US_PER_SECOND)
       /\ get_data None c0 w0 = (Returned (_location_data c0), c', w')
       /\ sent w' = sent w0 ++ [login_request c0])
  /\ (exists c0 w0 w',
       (forall k, clock w0 k
                  < _data_refreshed c0 + REFRESH_LIMIT * US_PER_SECOND)
       /\ get_data None c0 w0
          = (Raised (LoginError "Invalid credentials"), c0, w')
       /\ sent w' = sent w0 ++ [login_request c0])
  /\ (exists c0 w0 w',
       (forall k, clock w0 k
                  < _data_refreshed c0 + REFRESH_LIMIT * US_PER_SECOND)
       /\ get_data None c0 w0 = (Raised (ResponseError 503), c0, w')
       /\ sent w' = sent w0 ++ [login_request c0]).
Proof.
  intros Hloc. split; [|split; [|split; [|split]]].
  - intros e c1 w1 Htok.
    pose proof (get_location_data_token_raises _ _ _ _ _ _ Hloc Htok) as H.
    unfold get_data, get_system_state, get_devices.
    repeat split; erewrite bind_eq by exact H; reflexivity.
  - intros b c1 w1 next_refresh Htok Hnext Hnow.
    pose proof (get_location_data_throttled _ _ _ _ _ _ _ Hloc Htok Hnext Hnow)
      as H.
    destruct (frame_get_token _ _ _ _ _ Htok) as (Hd & _).
    unfold get_data, get_system_state, get_devices.
    repeat split; erewrite bind_eq by exact H; mstep; rewrite Hd; reflexivity.
  - exists logged_out_client,
      (still_world token_answer).
    do 2 eexists. split; [intros k; reflexivity|].
    split; vm_compute; reflexivity.
  - exists logged_out_client, (still_world (Response 401 None)).
    eexists. split; [intros k; reflexivity|].
    split; vm_compute; reflexivity.
  - exists logged_out_client, (still_world (Response 503 None)).
    eexists. split; [intros k; reflexivity|].
    split; vm_compute; reflexivity.
Qed.

(** ** Location cache: timestamp and snapshot move together *)

Lemma same_world_refl (c : Homely) (w : World) : same_world c w c w.
Proof. unfold same_world; repeat split; lia. Qed.

Lemma same_world_trans c1 w1 c2 w2 c3 w3 :
  same_world c1 w1 c2 w2 -> same_world c2 w2 c3 w3 -> same_world c1 w1 c3 w3.
Proof. unfold same_world; intuition (try congruence; try lia). Qed.

Lemma frame_same_world {A} (m : M A) : keeps frame m -> keeps same_world m.
Proof.
  intros Hm c w o c' w' H. destruct (Hm _ _ _ _ _ H) as (_ & _ & _ & H1 & H2 & H3).
  repeat split; assumption.
Qed.

Ltac crunch H :=
  repeat (mstep in H;
          try rewrite request_eq in H
            by (first [left; reflexivity | right; reflexivity]);
          match type of H with
          | context [match ?x with _ => _ end] =>
              destruct_innermost x; try discriminate H
          end).

Lemma get_location_data_cache_step (location_id : option string)
    (c : Homely) (w : World) (o : outcome bool) (c' : Homely) (w' : World) :
  _get_location_data location_id c w = (o, c', w') ->
  cache_step c w o c' w' /\ same_world c w c' w'.
Proof.
  intros H. unfold _get_location_data in H.
  erewrite bind_eq in H by reflexivity. cbv beta iota in H.
  assert (Hnone : raise (LoginError "Invalid location ID") c w = (o, c', w') ->
                  cache_step c w o c' w' /\ same_world c w c' w').
  { intros E. inversion E; subst. split; [left; split; reflexivity|].
    apply same_world_refl. }
  assert (Hsome : forall k : M (option string),
    (forall c1 w1 o1 c2 w2, k c1 w1 = (o1, c2, w2) ->
       c2 = c1 /\ w2 = w1 /\ exists l, o1 = Returned l) ->
    (get_token ;;
     req_loc_id <- k ;;
     refreshed <- attr _data_refreshed ;;
     next_refresh <- lift (add_seconds refreshed REFRESH_LIMIT) ;;
     t <- now ;;
     if t <? next_refresh then ret true else
     tok <- attr _access_token ;;
     response <- _request (URL_LOCATION_DATA ++ format_id req_loc_id)%string
                   (Bearer tok) "GET" ;;
     if 500 <=? status response then raise (ResponseError (status response)) else
     if status response =? 400 then raise (LoginError "Invalid location ID") else
     if 401 <=? status response then raise (LoginError "Unauthorized") else
     if in_200_201 (status response) then
       d <- lift (json_loads response) ;;
       assign (set_location_data d) ;;
       t <- now ;;
       assign (set_data_refreshed t) ;;
       ret true
     else ret false) c w = (o, c', w') ->
    cache_step c w o c' w' /\ same_world c w c' w').
  { clear H Hnone. intros k Hk H.
    unfold bind at 1 in H.
    destruct (get_token c w) as [[[b|e] c1] w1] eqn:Htok.
    2:{ inversion H; subst.
        destruct (frame_get_token _ _ _ _ _ Htok) as (Hd & Hr & _ & Hw).
        split; [left; split; assumption|exact Hw]. }
    destruct (frame_get_token _ _ _ _ _ Htok) as (Hd & Hr & _ & Hc & Hsv & Ht).
    unfold bind at 1 in H.
    destruct (k c1 w1) as [[o1 c2] w2] eqn:Ek.
    destruct (Hk _ _ _ _ _ Ek) as (-> & -> & l & ->).
    assert (Hleft : forall c3 w3,
      _location_data c3 = _location_data c1 ->
      _data_refreshed c3 = _data_refreshed c1 ->
      same_world c1 w1 c3 w3 ->
      cache_step c w o c3 w3 /\ same_world c w c3 w3).
    { intros c3 w3 E1 E2 Hw. split; [left; split; congruence|].
      eapply same_world_trans; [|exact Hw]. repeat split; assumption. }
    crunch H; inversion H; subst;
      try (apply Hleft; [reflexivity|reflexivity|
                         unfold same_world; cbn; repeat split; lia]).
    split.
    - right.
      match goal with
      | E : server _ _ = Response ?s0 ?t0, E' : json_loads _ = Returned ?d0
        |- _ => exists s0, d0; unfold json_loads in E'; cbn [text] in E';
                destruct t0; inversion E'; subst;
                cbn [server sent tick] in E
      end.
      cbn [sent tick log ticks pred]. rewrite List.length_app. cbn [List.length].
      rewrite Nat.add_1_r. cbn [pred]. rewrite <- Hsv, <- Hc.
      repeat split; try assumption; reflexivity.
    - unfold same_world. cbn. repeat split; try assumption; lia. }
  destruct (_location_id c) eqn:Eown; destruct location_id;
    try (apply Hnone; exact H);
    (eapply Hsome; [|exact H]);
    intros ? ? ? ? ? E; inversion E; subst;
    repeat split; eexists; reflexivity.
Qed.

Lemma frame_get_users_locations : keeps frame get_users_locations.
Proof.
  unfold get_users_locations.
  repeat first [ apply frame_access_token_valid | frame_step ].
Qed.

Lemma cache_step_ok (t0 : Z) (c : Homely) (w : World) (o : outcome bool)
    (c' : Homely) (w' : World) :
  no_null_body w -> cache_ok t0 c -> cache_step c w o c' w' -> cache_ok t0 c'.
Proof.
  intros Hnn Hok [(Hd & Hr)|(s & d & Hs & H2xx & _ & Hd & _)].
  - unfold cache_ok in *. rewrite Hd, Hr. exact Hok.
  - left. rewrite Hd. intros ->. exact (Hnn _ _ H2xx Hs).
Qed.

Lemma after_get_location_data {A} (location_id : option string)
    (k : M A) (c : Homely) (w : World) (o : outcome A)
    (c' : Homely) (w' : World) :
  (forall c1 w1 o1 c2 w2, k c1 w1 = (o1, c2, w2) -> c2 = c1 /\ w2 = w1) ->
  (_get_location_data location_id ;; k) c w = (o, c', w') ->
  exists o1, _get_location_data location_id c w = (o1, c', w').
Proof.
  intros Hk H. unfold bind in H.
  destruct (_get_location_data location_id c w) as [[[b|e] c1] w1].
  - destruct (Hk _ _ _ _ _ H) as [-> ->]. eexists; reflexivity.
  - inversion H; subst. eexists; reflexivity.
Qed.

Lemma perform_keeps_cache (t0 : Z) (k : call) (c : Homely) (w : World)
    (o : outcome unit) (c' : Homely) (w' : World) :
  perform k c w = (o, c', w') ->
  no_null_body w -> cache_ok t0 c ->
  cache_ok t0 c' /\ same_world c w c' w'.
Proof.
  intros H Hnn Hok.
  assert (Hframe : forall A (m : M A),
    keeps frame m -> (m ;; ret tt) c w = (o, c', w') ->
    cache_ok t0 c' /\ same_world c w c' w').
  { intros A m Hm E.
    assert (Hk : keeps frame (m ;; ret tt))
      by (repeat first [exact Hm | frame_step]).
    destruct (Hk _ _ _ _ _ E) as (Hd & Hr & _ & Hw).
    split; [|exact Hw]. unfold cache_ok in *. rewrite Hd, Hr. exact Hok. }
  assert (Hfetch : forall A l (m : M A),
    (forall c1 w1 o1 c2 w2, m c1 w1 = (o1, c2, w2) -> c2 = c1 /\ w2 = w1) ->
    ((_get_location_data l ;; m) ;; ret tt) c w = (o, c', w') ->
    cache_ok t0 c' /\ same_world c w c' w').
  { intros A l m Hm E. unfold bind at 1 in E.
    destruct ((_get_location_data l ;; m) c w) as [[o1 c1] w1] eqn:E1.
    assert (c' = c1 /\ w' = w1) as [-> ->]
      by (destruct o1; inversion E; split; reflexivity).
    destruct (after_get_location_data l m c w o1 c1 w1 Hm E1) as (o2 & E2).
    destruct (get_location_data_cache_step _ _ _ _ _ _ E2) as [Hstep Hw].
    split; [eapply cache_step_ok; eassumption|exact Hw]. }
  destruct k; cbn [perform] in H.
  - exact (Hframe _ _ frame_get_token H).
  - unfold set_location_id in H. injection H as _ Hc' Hw'. subst c' w'.
    split; [exact Hok|exact (same_world_refl c w)].
  - exact (Hframe _ _ frame_get_users_locations H).
  - unfold get_system_state in H. eapply Hfetch; [|exact H].
    intros c1 w1 o1 c2 w2 E. mstep in E. inversion E; split; reflexivity.
  - unfold get_devices in H. eapply Hfetch; [|exact H].
    intros c1 w1 o1 c2 w2 E. mstep in E. inversion E; split; reflexivity.
  - unfold get_data in H. eapply Hfetch; [|exact H].
    intros c1 w1 o1 c2 w2 E. inversion E; split; reflexivity.
Qed.

Lemma run_keeps_cache (t0 : Z) (ks : list call) :
  forall (c : Homely) (w : World) (c' : Homely) (w' : World),
    run ks c w = (c', w') ->
    no_null_body w -> cache_ok t0 c ->
    cache_ok t0 c' /\ same_world c w c' w'.
Proof.
  induction ks as [|k ks IH]; intros c w c' w' H Hnn Hok.
  - inversion H; subst. split; [exact Hok|apply same_world_refl].
  - cbn [run] in H.
    destruct (perform k c w) as [[o c1] w1] eqn:E.
    destruct (perform_keeps_cache t0 _ _ _ _ _ _ E Hnn Hok) as [Hok1 Hw1].
    assert (Hnn1 : no_null_body w1)
      by (unfold no_null_body; destruct Hw1 as (_ & -> & _); exact Hnn).
    destruct (IH _ _ _ _ H Hnn1 Hok1) as [Hok' Hw'].
    split; [exact Hok'|eapply same_world_trans; eassumption].
Qed.

Lemma init_returns (username password : string) (location_id : option string)
    (w0 : World) (c0 : Homely) (w1 : World) :
  init username password location_id w0 = (Returned c0, w1) ->
  _location_data c0 = VNone
  /\ _access_token c0 = VNone
  /\ _refresh_token c0 = VNone
  /\ w1 = tick (tick (tick w0))
  /\ _data_refreshed c0
     = clock w0 (S (S (ticks w0))) - (REFRESH_LIMIT + 60) * US_PER_SECOND.
Proof.
  intros H. unfold init in H. cbv zeta in H. mstep in H.
  split_run H. inversion H; subst.
  match goal with
  | E : add_seconds (clock w0 (S (S (ticks w0)))) _ = Returned _ |- _ =>
      apply add_seconds_returns in E; destruct E as [E _]
  end.
  cbn [_location_data _access_token _refresh_token _data_refreshed
       set_data_refreshed].
  repeat split; try reflexivity.
  unfold REFRESH_LIMIT, US_PER_SECOND in *. lia.
Qed.

(** C8, as amended: on a client built by [__init__] and used through any
    sequence of calls, one call of [_get_location_data] either leaves the
    snapshot and its timestamp as they were or installs both at once from a
    200/201 answer whose body parses; and when no success answer of the server
    has a [null] body and the clock never reads earlier than 60 seconds before
    the reading taken at construction, a [get_data] that is answered from the
    cache returns a snapshot that is not [None]. *)
Theorem cache_hit_serves_installed_snapshot
    (username password : string) (configured : option string)
    (w0 : World) (c0 : Homely) (w1 : World) (calls : list call)
    (c : Homely) (w : World) :
  init username password configured w0 = (Returned c0, w1) ->
  no_null_body w0 ->
  (forall k : nat, (ticks w1 <= k)%nat ->
     _data_refreshed c0 + REFRESH_LIMIT * US_PER_SECOND <= clock w0 k) ->
  run calls c0 w1 = (c, w) ->
  (forall location_id o c' w',
     _get_location_data location_id c w = (o, c', w') ->
     cache_step c w o c' w')
  /\ (forall location_id b c1 wt next_refresh,
       location_id <> None \/ _location_id c <> None ->
       get_token c w = (Returned b, c1, wt) ->
       add_seconds (_data_refreshed c1) REFRESH_LIMIT = Returned next_refresh ->
       clock wt (ticks wt) < next_refresh ->
       get_data location_id c w = (Returned (_location_data c), c1, tick wt)
       /\ _location_data c <> VNone).
Proof.
  intros Hinit Hnn Hclock Hrun. split.
  - intros location_id o c' w' H.
    apply (get_location_data_cache_step _ _ _ _ _ _ H).
  - intros location_id b c1 wt next_refresh Hloc Htok Hnext Hhit.
    destruct (init_returns _ _ _ _ _ _ Hinit) as (Hd0 & _ & _ & Hw1 & _).
    assert (Hnn1 : no_null_body w1) by (subst w1; exact Hnn).
    assert (Hok0 : cache_ok (_data_refreshed c0) c0) by (right; reflexivity).
    destruct (run_keeps_cache _ _ _ _ _ _ Hrun Hnn1 Hok0)
      as (Hok & Hc & _ & Ht).
    destruct (frame_get_token _ _ _ _ _ Htok) as (Hd & Hr & _ & Hc' & _ & Ht').
    split.
    + pose proof (get_location_data_throttled _ _ _ _ _ _ _
                    Hloc Htok Hnext Hhit) as H.
      unfold get_data. erewrite bind_eq by exact H. mstep.
      rewrite Hd. reflexivity.
    + destruct Hok as [Hok|Hok]; [exact Hok|exfalso].
      apply add_seconds_returns in Hnext. destruct Hnext as [Hnext _].
      rewrite Hr, Hok in Hnext.
      assert (Hlate : (ticks w1 <= ticks wt)%nat) by lia.
      specialize (Hclock _ Hlate).
      rewrite Hc', Hc in Hhit. subst w1. cbn [clock tick] in Hhit. lia.
Qed.

(** ** Token manager: footprint and failure modes *)

Lemma token_traffic_refl (c : Homely) (w : World) : token_traffic c w c w.
Proof.
  split; [unfold tokens_only; repeat split|].
  exists []. split; [symmetry; apply app_nil_r|constructor].
Qed.

Lemma token_traffic_trans c1 w1 c2 w2 c3 w3 :
  token_traffic c1 w1 c2 w2 -> token_traffic c2 w2 c3 w3 ->
  token_traffic c1 w1 c3 w3.
Proof.
  intros [H1 (l1 & E1 & F1)] [H2 (l2 & E2 & F2)]. split.
  - unfold tokens_only in *. intuition congruence.
  - exists (l1 ++ l2). split.
    + rewrite E2, E1. symmetry. apply app_assoc.
    + apply Forall_app. split; assumption.
Qed.

Lemma token_traffic_now : keeps token_traffic now.
Proof.
  intros c w o c' w' H. inversion H; subst.
  split; [unfold tokens_only; repeat split|].
  exists []. split; [cbn [sent tick]; symmetry; apply app_nil_r|constructor].
Qed.

Lemma token_traffic_request (u : string) (d : req_data) (rt : string) :
  u = URL_TOKEN \/ u = URL_TOKEN_REFRESH ->
  keeps token_traffic (_request u d rt).
Proof.
  intros Hu c w o c' w' H. unfold _request in H.
  assert (Hlog : token_traffic c w c (log (mkRequest u d rt) w)).
  { split; [unfold tokens_only; repeat split|].
    exists [mkRequest u d rt]. split; [reflexivity|].
    constructor; [exact Hu|constructor]. }
  destruct ((rt =? "GET")%string || (rt =? "POST")%string).
  - destruct (server w (List.length (sent w))); inversion H; subst; exact Hlog.
  - inversion H; subst. apply token_traffic_refl.
Qed.

Lemma token_traffic_assign (f : Homely -> Homely) :
  (forall c, tokens_only c (f c)) -> keeps token_traffic (assign f).
Proof.
  intros Hf c w o c' w' H. inversion H; subst.
  split; [apply Hf|].
  exists []. split; [symmetry; apply app_nil_r|constructor].
Qed.

Ltac token_traffic_step :=
  first
    [ apply (keeps_bind token_traffic token_traffic_trans); [ | intros ? ]
    | apply (keeps_ret token_traffic token_traffic_refl)
    | apply (keeps_raise token_traffic token_traffic_refl)
    | apply (keeps_lift token_traffic token_traffic_refl)
    | apply (keeps_attr token_traffic token_traffic_refl)
    | apply token_traffic_now
    | apply token_traffic_request; solve [left; reflexivity | right; reflexivity]
    | apply token_traffic_assign; intros ?; unfold tokens_only;
      repeat split; reflexivity
    | match goal with
      | |- keeps _ (if ?b then _ else _) => destruct b
      | |- keeps _ (match ?x with _ => _ end) => destruct x
      end ].

Lemma token_traffic_token_expired (e : Z) :
  keeps token_traffic (_token_expired e).
Proof. unfold _token_expired. repeat token_traffic_step. Qed.

Lemma token_traffic_access_token_valid : keeps token_traffic _access_token_valid.
Proof.
  unfold _access_token_valid.
  repeat first [ apply token_traffic_token_expired | token_traffic_step ].
Qed.

Lemma token_traffic_install_tokens (d : outcome value) :
  keeps token_traffic (install_tokens d).
Proof. unfold install_tokens. repeat token_traffic_step. Qed.

Lemma token_traffic_refresh_access_token :
  keeps token_traffic _refresh_access_token.
Proof.
  unfold _refresh_access_token.
  repeat first
    [ apply token_traffic_token_expired | apply token_traffic_install_tokens
    | token_traffic_step ].
Qed.

Lemma token_traffic_get_token_login : keeps token_traffic get_token_login.
Proof.
  unfold get_token_login.
  repeat first [ apply token_traffic_install_tokens | token_traffic_step ].
Qed.

(** X1: whatever [get_token] does, returning or raising, it leaves the
    credentials, the configured location, the list of locations, the snapshot
    and its timestamp as they were, and every request it makes goes to the
    login or to the refresh endpoint. *)
Theorem get_token_footprint (c : Homely) (w : World) :
  token_traffic c w (snd (fst (get_token c w))) (snd (get_token c w)).
Proof.
  assert (H : keeps token_traffic get_token).
  { unfold get_token.
    repeat first
      [ apply token_traffic_token_expired
      | apply token_traffic_access_token_valid
      | apply token_traffic_refresh_access_token
      | apply token_traffic_get_token_login
      | token_traffic_step ]. }
  destruct (get_token c w) as [[o c'] w'] eqn:E. exact (H _ _ _ _ _ E).
Qed.

Lemma get_token_login_eq (c : Homely) (w : World) :
  get_token_login c w
  = match server w (List.length (sent w)) with
    | Response s t =>
        (if 500 <=? s then raise (ResponseError s) else
         if 400 <=? s then raise (LoginError "Invalid credentials") else
         resp_data <- (if in_200_201 s
                       then d <- lift (json_loads (mkResponse s t)) ;;
                            ret (Some d)
                       else ret None) ;;
         install_tokens (read_local "resp_data" resp_data) ;;
         ret true) c (log (login_request c) w)
    | ClientError | TimeoutError =>
        (Raised TypeError, c, log (login_request c) w)
    end.
Proof.
  unfold get_token_login.
  erewrite bind_eq by reflexivity. cbv beta iota.
  erewrite bind_eq by reflexivity. cbv beta iota.
  unfold bind at 1. rewrite request_eq by (right; reflexivity).
  destruct (server w (List.length (sent w))); reflexivity.
Qed.

(** X2: a full login that is refused raises [ResponseError] for a status of
    500 and above and [LoginError] for a status from 400 to 499.  A login
    that does not get through, by a connection error or by a timeout, raises
    [TypeError]: the handlers of [_request] raise [RequestFailed] from the
    class [Homely], which is no exception, so [RequestFailed] never leaves
    them.  In each case the client is exactly as before and the login is the
    one request made. *)
Theorem login_failure_keeps_client (c : Homely) (w : World) :
  let w' := log (login_request c) w in
  (forall s body,
     server w (List.length (sent w)) = Response s body ->
     (500 <= s -> get_token_login c w = (Raised (ResponseError s), c, w'))
     /\ (400 <= s < 500 ->
         get_token_login c w
           = (Raised (LoginError "Invalid credentials"), c, w')))
  /\ (server w (List.length (sent w)) = ClientError
      \/ server w (List.length (sent w)) = TimeoutError ->
      get_token_login c w = (Raised TypeError, c, w'))
  /\ sent w' = sent w ++ [login_request c].
Proof.
  intros w'. rewrite get_token_login_eq. repeat split.
  - intros H500. rewrite H.
    destruct (Z.leb_spec 500 s); [reflexivity|lia].
  - intros [H400 H500]. rewrite H.
    destruct (Z.leb_spec 500 s); [lia|].
    destruct (Z.leb_spec 400 s); [reflexivity|lia].
  - intros [H|H]; rewrite H; reflexivity.
Qed.

(** X3: the four assignments of a login are not all-or-nothing.  When the
    login is answered 200 or 201 with a document that holds [access_token]
    and on which [expires_in] cannot be read (a missing key, say),
    [get_token]'s login raises that error with the new access token already
    stored, and the old expiry, refresh token and refresh expiry still in
    place. *)
Theorem login_without_expiry_stores_token (c : Homely) (w : World)
    (s : Z) (d tok : value) (e : exn) :
  server w (List.length (sent w)) = Response s (Some d) ->
  in_200_201 s = true ->
  subscript d "access_token" = Returned tok ->
  subscript d "expires_in" = Raised e ->
  get_token_login c w
    = (Raised e, set_access_token tok c, tick (log (login_request c) w)).
Proof.
  intros Hs H2xx Htok Hexp.
  assert (Hst : (500 <=? s) = false /\ (400 <=? s) = false).
  { unfold in_200_201 in H2xx. apply orb_prop in H2xx.
    destruct H2xx as [E|E]; apply Z.eqb_eq in E; subst s; split; reflexivity. }
  destruct Hst as [H500 H400].
  unfold get_token_login. mstep. rewrite request_eq by (right; reflexivity).
  rewrite Hs. mstep. rewrite H500, H400, H2xx.
  unfold json_loads. mstep. cbn [read_local].
  unfold install_tokens. mstep. rewrite Htok. mstep. rewrite Hexp.
  reflexivity.
Qed.

Lemma install_tokens_returns_refresh (d : value) (c : Homely) (w : World)
    (u : unit) (c' : Homely) (w' : World) :
  install_tokens (Returned d) c w = (Returned u, c', w') ->
  refresh_installed (clock w (S (ticks w))) d c'
  /\ w' = tick (tick w).
Proof.
  intros H. unfold install_tokens in H. mstep in H.
  split_run H. inversion H; subst.
  match goal with
  | E : add_seconds (clock w (S (ticks w))) _ = Returned _ |- _ =>
      apply add_seconds_returns in E; destruct E as [E _]
  end.
  split; [|reflexivity].
  do 3 eexists. repeat split; try eassumption; try reflexivity.
Qed.

Lemma login_returns_true (c : Homely) (w : World) (c' : Homely) (w' : World) :
  get_token_login c w = (Returned true, c', w') ->
  exists (s : Z) (d : value),
    server w (List.length (sent w)) = Response s (Some d)
    /\ refresh_installed (clock w (S (ticks w))) d c'
    /\ sent w' = sent w ++ [login_request c].
Proof.
  intros H.
  unfold get_token_login in H.
  erewrite bind_eq in H by reflexivity. cbv beta iota in H.
  erewrite bind_eq in H by reflexivity. cbv beta iota in H.
  unfold bind at 1 in H. rewrite request_eq in H by (right; reflexivity).
  destruct (server w (List.length (sent w))) as [s body| |];
    try discriminate H.
  cbv beta iota in H. cbn [status] in H.
  destruct (500 <=? s); [discriminate H|].
  destruct (400 <=? s); [discriminate H|].
  destruct (in_200_201 s).
  - unfold json_loads in H at 1. cbn [text] in H.
    destruct body as [d|]; mstep in H; [|discriminate H].
    cbn [read_local] in H.
    match type of H with
    | context [install_tokens (Returned d) c ?w0] =>
        destruct (install_tokens (Returned d) c w0)
          as [[[u|e] c2] w2] eqn:E; [|discriminate H]
    end.
    inversion H; subst c2 w2.
    apply install_tokens_returns_refresh in E. destruct E as [E ->].
    exists s, d.
    split; [reflexivity|split; [exact E|reflexivity]].
  - mstep in H. cbn [read_local] in H. unfold install_tokens in H.
    mstep in H. discriminate H.
Qed.

Lemma refresh_returns_true (c : Homely) (w : World)
    (c' : Homely) (w' : World) :
  _refresh_access_token c w = (Returned true, c', w') ->
  exists (s : Z) (d : value),
    server w (List.length (sent w)) = Response s (Some d)
    /\ refresh_installed (clock w (S (S (ticks w)))) d c'
    /\ sent w' = sent w ++ [refresh_request c].
Proof.
  intros H.
  unfold _refresh_access_token in H.
  erewrite bind_eq in H by reflexivity. cbv beta iota in H.
  destruct (is_None (_refresh_token c)) eqn:Ert.
  - mstep in H. discriminate H.
  - erewrite bind_eq in H
      by (erewrite bind_eq by reflexivity; cbv beta iota;
          apply token_expired_eq).
    cbv beta iota in H.
    destruct (_refresh_token_expire c <? clock w (ticks w));
      [discriminate H|].
    erewrite bind_eq in H by reflexivity. cbv beta iota in H.
    unfold bind at 1 in H. rewrite request_eq in H by (right; reflexivity).
    cbn [clock ticks server sent tick] in H.
    destruct (server w (List.length (sent w))) as [s body| |];
      try discriminate H.
    cbv beta iota in H. cbn [status] in H.
    destruct (500 <=? s); [discriminate H|].
    destruct (s =? 400); [discriminate H|].
    destruct (401 <=? s); [discriminate H|].
    destruct (in_200_201 s); [|discriminate H].
    unfold json_loads in H at 1. cbn [text] in H.
    destruct body as [d|]; mstep in H; [|discriminate H].
    match type of H with
    | context [install_tokens (Returned d) c ?w0] =>
        destruct (install_tokens (Returned d) c w0)
          as [[[u|e] c2] w2] eqn:E; [|discriminate H]
    end.
    inversion H; subst c2 w2.
    apply install_tokens_returns_refresh in E. destruct E as [E ->].
    exists s, d.
    split; [reflexivity|split; [exact E|reflexivity]].
Qed.

(** X4: when the full login or the refresh (the flag says which) returns
    [True], the stored refresh token is the [refresh_token] of the response
    document, its expiry is the reading of the clock taken after the one for
    the access token plus [int(refresh_expires_in)] minus the margin of 20
    seconds, and the call has made exactly one request. *)
Theorem refresh_expiry_after_login_or_refresh (via_refresh : bool)
    (c : Homely) (w : World) (c' : Homely) (w' : World) :
  (if via_refresh then _refresh_access_token c w else get_token_login c w)
    = (Returned true, c', w') ->
  exists (s : Z) (d : value),
    server w (List.length (sent w)) = Response s (Some d)
    /\ refresh_installed
         (clock w (if via_refresh then S (S (ticks w)) else S (ticks w))) d c'
    /\ sent w'
       = sent w ++ [if via_refresh then refresh_request c else login_request c].
Proof.
  destruct via_refresh.
  - apply refresh_returns_true.
  - apply login_returns_true.
Qed.

(** X20: with an access token that is not valid and a refresh token that is
    present and unexpired, a refresh that returns [True] and leaves a valid
    access token ends [get_token]: it returns [True], the refresh is the only
    request made, and the login is not attempted. *)
Theorem refresh_success_skips_login (c : Homely) (w w1 : World)
    (c2 : Homely) (w2 : World) :
  _access_token_valid c w = (Returned false, c, w1) ->
  _refresh_token c <> VNone ->
  clock w1 (ticks w1) <= _refresh_token_expire c ->
  _refresh_access_token c (tick w1) = (Returned true, c2, w2) ->
  _access_token c2 <> VNone ->
  clock w2 (ticks w2) <= _access_token_expire c2 ->
  get_token c w = (Returned true, c2, tick w2)
  /\ sent (tick w2) = sent w1 ++ [refresh_request c].
Proof.
  intros Hinv Hrt Hexp Href Htok Hvalid. split.
  - unfold get_token.
    erewrite bind_eq by exact Hinv. cbv beta iota.
    erewrite bind_eq by reflexivity. cbv beta iota.
    destruct (is_None (_refresh_token c)) eqn:Ert;
      [apply is_None_true in Ert; congruence|].
    erewrite bind_eq
      by (erewrite bind_eq by reflexivity; cbv beta iota;
          erewrite bind_eq by apply token_expired_eq; reflexivity).
    cbv beta iota.
    destruct (Z.ltb_spec (_refresh_token_expire c) (clock w1 (ticks w1)));
      [lia|]. cbn [negb].
    erewrite bind_eq
      by (erewrite bind_eq by exact Href; cbv beta iota;
          apply access_token_valid_true; assumption).
    reflexivity.
  - destruct (refresh_returns_true c (tick w1) c2 w2 Href)
      as (s & d & _ & _ & Hsent).
    exact Hsent.
Qed.


(** ** Location cache: what a fetch can end in *)

(** X5: with no location configured and none passed, [get_data],
    [get_system_state] and [get_devices] raise
    [LoginError("Invalid location ID")] before anything else: no reading of
    the clock, no token step, no request, and the client is as before. *)
Theorem no_location_id_raises_first (c : Homely) (w : World) :
  _location_id c = None ->
  let raised := (Raised (LoginError "Invalid location ID"), c, w) in
  get_data None c w = raised
  /\ get_system_state None c w = raised
  /\ get_devices None c w = raised.
Proof.
  intros Hid raised.
  unfold get_data, get_system_state, get_devices, _get_location_data.
  repeat split; mstep; rewrite Hid; reflexivity.
Qed.

Lemma get_location_data_due (location_id : option string)
    (c : Homely) (w : World) (b : bool) (c1 : Homely) (w1 : World)
    (next_refresh : Z) :
  location_id <> None \/ _location_id c <> None ->
  get_token c w = (Returned b, c1, w1) ->
  add_seconds (_data_refreshed c1) REFRESH_LIMIT = Returned next_refresh ->
  next_refresh <= clock w1 (ticks w1) ->
  _get_location_data location_id c w
  = match server w1 (List.length (sent w1)) with
    | Response s t =>
        (if 500 <=? s then raise (ResponseError s) else
         if s =? 400 then raise (LoginError "Invalid location ID") else
         if 401 <=? s then raise (LoginError "Unauthorized") else
         if in_200_201 s then
           d <- lift (json_loads (mkResponse s t)) ;;
           assign (set_location_data d) ;;
           t <- now ;;
           assign (set_data_refreshed t) ;;
           ret true
         else ret false)
          c1 (log (location_request c1 location_id) (tick w1))
    | ClientError | TimeoutError =>
        (Raised TypeError, c1,
         log (location_request c1 location_id) (tick w1))
    end.
Proof.
  intros Hloc Htok Hnext Hdue.
  destruct (frame_get_token _ _ _ _ _ Htok) as (_ & _ & Hid & _).
  unfold _get_location_data.
  erewrite bind_eq by reflexivity. cbv beta iota.
  destruct (_location_id c) eqn:Eown; destruct location_id;
    try (destruct Hloc; congruence);
    erewrite bind_eq by exact Htok; mstep; rewrite Hnext; mstep;
    destruct (Z.ltb_spec (clock w1 (ticks w1)) next_refresh); try lia;
    rewrite request_eq by (left; reflexivity); mstep;
    unfold location_request; cbn [url]; try rewrite Hid;
    destruct (server w1 (List.length (sent w1))); reflexivity.
Qed.

(** X6: when the token step has returned and the throttle lets the fetch
    through, a status of 500 and above raises [ResponseError], a status from
    401 to 499 raises [LoginError("Unauthorized")], and a connection error or
    a timeout raises [TypeError], the [RequestFailed] of [_request] being
    raised from a class that is no exception; in each case the one request
    made is the fetch and the snapshot and its timestamp are those from
    before the call. *)
Theorem fetch_failure_keeps_cache (location_id : option string)
    (c : Homely) (w : World) (b : bool) (c1 : Homely) (w1 : World)
    (next_refresh : Z) :
  location_id <> None \/ _location_id c <> None ->
  get_token c w = (Returned b, c1, w1) ->
  add_seconds (_data_refreshed c1) REFRESH_LIMIT = Returned next_refresh ->
  next_refresh <= clock w1 (ticks w1) ->
  let w' := log (location_request c1 location_id) (tick w1) in
  _location_data c1 = _location_data c
  /\ _data_refreshed c1 = _data_refreshed c
  /\ (forall s body,
       server w1 (List.length (sent w1)) = Response s body ->
       (500 <= s ->
        _get_location_data location_id c w = (Raised (ResponseError s), c1, w'))
       /\ (401 <= s < 500 ->
           _get_location_data location_id c w
             = (Raised (LoginError "Unauthorized"), c1, w')))
  /\ (server w1 (List.length (sent w1)) = ClientError
      \/ server w1 (List.length (sent w1)) = TimeoutError ->
      _get_location_data location_id c w = (Raised TypeError, c1, w'))
  /\ sent w' = sent w1 ++ [location_request c1 location_id].
Proof.
  intros Hloc Htok Hnext Hdue w'.
  destruct (frame_get_token _ _ _ _ _ Htok) as (Hd & Hr & _).
  rewrite (get_location_data_due _ _ _ _ _ _ _ Hloc Htok Hnext Hdue).
  repeat split; try assumption.
  - intros H500. rewrite H.
    destruct (Z.leb_spec 500 s); [reflexivity|lia].
  - intros [H401 H500]. rewrite H.
    destruct (Z.leb_spec 500 s); [lia|].
    destruct (Z.eqb_spec s 400); [lia|].
    destruct (Z.leb_spec 401 s); [reflexivity|lia].
  - intros [H|H]; rewrite H; reflexivity.
Qed.

(** X7: a fetch answered with a status below 400 other than 200 and 201 is
    not an error: [_get_location_data] returns [False] with the snapshot and
    its timestamp untouched, so [get_data] returns the snapshot from before
    the call, and on a client that has never stored one it returns [None]
    while [get_system_state] and [get_devices] raise [AttributeError]. *)
Theorem fetch_unlisted_status_serves_old_snapshot (location_id : option string)
    (c : Homely) (w : World) (b : bool) (c1 : Homely) (w1 : World)
    (next_refresh s : Z) (body : option value) :
  location_id <> None \/ _location_id c <> None ->
  get_token c w = (Returned b, c1, w1) ->
  add_seconds (_data_refreshed c1) REFRESH_LIMIT = Returned next_refresh ->
  next_refresh <= clock w1 (ticks w1) ->
  server w1 (List.length (sent w1)) = Response s body ->
  s < 400 ->
  in_200_201 s = false ->
  let w' := log (location_request c1 location_id) (tick w1) in
  _get_location_data location_id c w = (Returned false, c1, w')
  /\ _data_refreshed c1 = _data_refreshed c
  /\ get_data location_id c w = (Returned (_location_data c), c1, w')
  /\ (_location_data c = VNone ->
      get_system_state location_id c w = (Raised AttributeError, c1, w')
      /\ get_devices location_id c w = (Raised AttributeError, c1, w')).
Proof.
  intros Hloc Htok Hnext Hdue Hs Hlt H2xx w'.
  destruct (frame_get_token _ _ _ _ _ Htok) as (Hd & Hr & _).
  assert (H : _get_location_data location_id c w = (Returned false, c1, w')).
  { rewrite (get_location_data_due _ _ _ _ _ _ _ Hloc Htok Hnext Hdue).
    rewrite Hs.
    destruct (Z.leb_spec 500 s); [lia|].
    destruct (Z.eqb_spec s 400); [lia|].
    destruct (Z.leb_spec 401 s); [lia|].
    rewrite H2xx. reflexivity. }
  split; [exact H|]. split; [exact Hr|]. split.
  - unfold get_data. erewrite bind_eq by exact H. mstep.
    rewrite Hd. reflexivity.
  - intros Hnone. rewrite <- Hd in Hnone.
    unfold get_system_state, get_devices.
    split; erewrite bind_eq by exact H; mstep; rewrite Hnone; reflexivity.
Qed.

(** X8: the throttle is a strict comparison on the reading of the clock
    taken after the token step.  Below [_data_refreshed] plus 10 seconds the
    call makes no request of its own; from that instant on it makes exactly
    one, whatever the answer: a GET for the location passed, or for the
    configured one when none is passed, bearing the current access token. *)
Theorem throttle_decides_the_fetch (location_id : option string)
    (c : Homely) (w : World) (b : bool) (c1 : Homely) (w1 : World)
    (limit : Z) :
  location_id <> None \/ _location_id c <> None ->
  get_token c w = (Returned b, c1, w1) ->
  add_seconds (_data_refreshed c1) REFRESH_LIMIT = Returned limit ->
  let after := snd (_get_location_data location_id c w) in
  limit = _data_refreshed c + REFRESH_LIMIT * US_PER_SECOND
  /\ (clock w1 (ticks w1) < limit -> sent after = sent w1)
  /\ (limit <= clock w1 (ticks w1) ->
      sent after
      = sent w1
          ++ [mkRequest
                (URL_LOCATION_DATA
                   ++ match location_id with
                      | Some l => l
                      | None => format_id (_location_id c)
                      end)%string
                (Bearer (_access_token c1)) "GET"]).
Proof.
  intros Hloc Htok Hnext after.
  destruct (frame_get_token _ _ _ _ _ Htok) as (_ & Hr & Hid & _).
  split; [|split].
  - apply add_seconds_returns in Hnext. rewrite <- Hr. apply Hnext.
  - intros Hnow. unfold after.
    rewrite (get_location_data_throttled _ _ _ _ _ _ _ Hloc Htok Hnext Hnow).
    reflexivity.
  - intros Hdue. unfold after.
    rewrite (get_location_data_due _ _ _ _ _ _ _ Hloc Htok Hnext Hdue).
    assert (Hreq : location_request c1 location_id
                   = mkRequest
                       (URL_LOCATION_DATA
                          ++ match location_id with
                             | Some l => l
                             | None => format_id (_location_id c)
                             end)%string
                       (Bearer (_access_token c1)) "GET").
    { unfold location_request. rewrite Hid.
      destruct location_id; reflexivity. }
    rewrite <- Hreq.
    destruct (server w1 (List.length (sent w1))) as [s t| |];
      try reflexivity.
    destruct (500 <=? s); [reflexivity|].
    destruct (s =? 400); [reflexivity|].
    destruct (401 <=? s); [reflexivity|].
    destruct (in_200_201 s); [|reflexivity].
    unfold json_loads. cbn [text]. destruct t; reflexivity.
Qed.

(** X9: a fetch answered 200 or 201 stores the document and the three
    location calls read it: [get_data] returns it, [get_system_state] returns
    its [alarmState] or ["UNKNOWN"] when it has none, [get_devices] returns
    its [devices] or the empty list.  A body that is not an object is stored
    all the same, and [get_system_state] and [get_devices] then raise
    [AttributeError]. *)
Theorem fetched_document_is_served (location_id : option string)
    (c : Homely) (w : World) (b : bool) (c1 : Homely) (w1 : World)
    (next_refresh s : Z) (d : value) :
  location_id <> None \/ _location_id c <> None ->
  get_token c w = (Returned b, c1, w1) ->
  add_seconds (_data_refreshed c1) REFRESH_LIMIT = Returned next_refresh ->
  next_refresh <= clock w1 (ticks w1) ->
  server w1 (List.length (sent w1)) = Response s (Some d) ->
  in_200_201 s = true ->
  let c' := set_data_refreshed (clock w1 (S (ticks w1)))
              (set_location_data d c1) in
  let w' := tick (log (location_request c1 location_id) (tick w1)) in
  get_data location_id c w = (Returned d, c', w')
  /\ get_system_state location_id c w
     = (match d with
        | VDict kv =>
            match lookup "alarmState" kv with
            | Some v => Returned v
            | None => Returned (VStr "UNKNOWN")
            end
        | _ => Raised AttributeError
        end, c', w')
  /\ get_devices location_id c w
     = (match d with
        | VDict kv =>
            match lookup "devices" kv with
            | Some v => Returned v
            | None => Returned (VList [])
            end
        | _ => Raised AttributeError
        end, c', w').
Proof.
  intros Hloc Htok Hnext Hdue Hs H2xx c' w'.
  pose proof (get_location_data_fetched _ _ _ _ _ _ _ _ _
                Hloc Htok Hnext Hdue Hs H2xx) as H.
  fold c' in H. fold w' in H.
  unfold get_data, get_system_state, get_devices.
  repeat split; erewrite bind_eq by exact H; mstep;
    cbn [_location_data c' set_data_refreshed set_location_data];
    destruct d; reflexivity.
Qed.

(** ** Listing the locations *)


Lemma get_users_locations_eq (c : Homely) (w : World) :
  _access_token c <> VNone ->
  clock w (ticks w) <= _access_token_expire c ->
  get_users_locations c w
  = match server w (List.length (sent w)) with
    | Response s t =>
        (if 500 <=? s then raise (ResponseError s) else
         if 400 <=? s then raise (LoginError "Unauthorized") else
         resp_data <- (if in_200_201 s
                       then d <- lift (json_loads (mkResponse s t)) ;;
                            ret (Some d)
                       else ret None) ;;
         d <- lift (read_local "resp_data" resp_data) ;;
         assign (set_locations d) ;;
         attr _locations) c (log (locations_request c) (tick w))
    | ClientError | TimeoutError =>
        (Raised TypeError, c, log (locations_request c) (tick w))
    end.
Proof.
  intros Htok Hexp. unfold get_users_locations.
  erewrite bind_eq by (apply access_token_valid_true; assumption).
  cbv beta iota. cbn [negb].
  erewrite bind_eq by reflexivity. cbv beta iota.
  unfold bind at 1. rewrite request_eq by (left; reflexivity).
  cbn [server sent tick].
  destruct (server w (List.length (sent w))); reflexivity.
Qed.

(** X10: with a valid access token [get_users_locations] makes one GET to
    the locations endpoint.  A 200 or 201 with a document returns that
    document and stores it in [_locations], changing nothing else; a status of
    500 and above raises [ResponseError], one from 400 to 499 raises
    [LoginError("Unauthorized")], a body that does not parse raises
    [JSONDecodeError], and any other status raises [UnboundLocalError]; every
    failure leaves the client as it was. *)
Theorem get_users_locations_outcomes (c : Homely) (w : World)
    (s : Z) (body : option value) :
  _access_token c <> VNone ->
  clock w (ticks w) <= _access_token_expire c ->
  server w (List.length (sent w)) = Response s body ->
  let w' := log (locations_request c) (tick w) in
  (500 <= s -> get_users_locations c w = (Raised (ResponseError s), c, w'))
  /\ (400 <= s < 500 ->
      get_users_locations c w = (Raised (LoginError "Unauthorized"), c, w'))
  /\ (in_200_201 s = true ->
      get_users_locations c w
      = match body with
        | Some d => (Returned d, set_locations d c, w')
        | None => (Raised JSONDecodeError, c, w')
        end)
  /\ (s < 400 -> in_200_201 s = false ->
      get_users_locations c w
        = (Raised (UnboundLocalError "resp_data"), c, w')).
Proof.
  intros Htok Hexp Hs w'.
  rewrite (get_users_locations_eq c w Htok Hexp), Hs. fold w'.
  repeat split.
  - intros H500. destruct (Z.leb_spec 500 s); [reflexivity|lia].
  - intros [H400 H500].
    destruct (Z.leb_spec 500 s); [lia|].
    destruct (Z.leb_spec 400 s); [reflexivity|lia].
  - intros H2xx.
    assert (Hst : (500 <=? s) = false /\ (400 <=? s) = false).
    { unfold in_200_201 in H2xx. apply orb_prop in H2xx.
      destruct H2xx as [E|E]; apply Z.eqb_eq in E; subst s; split;
        reflexivity. }
    destruct Hst as [-> ->]. rewrite H2xx.
    unfold json_loads. cbn [text]. destruct body; reflexivity.
  - intros Hlt H2xx.
    destruct (Z.leb_spec 500 s); [lia|].
    destruct (Z.leb_spec 400 s); [lia|].
    rewrite H2xx. reflexivity.
Qed.

(** ** A client as constructed *)

(** X11: a client as [__init__] leaves it holds no token, at whatever time
    it is used: [get_token] goes straight to the full login, with no reading
    of the clock and no refresh before it, and [get_users_locations] raises
    [LoginError("No valid access token")] without a request.  It keeps the
    credentials and the location it was given. *)
Theorem constructed_client_must_login
    (username password : string) (configured : option string)
    (w0 : World) (c0 : Homely) (w1 : World) (w : World) :
  init username password configured w0 = (Returned c0, w1) ->
  get_token c0 w = get_token_login c0 w
  /\ get_users_locations c0 w
     = (Raised (LoginError "No valid access token"), c0, w)
  /\ _username c0 = username
  /\ _password c0 = password
  /\ _location_id c0 = configured.
Proof.
  intros Hinit.
  destruct (init_returns _ _ _ _ _ _ Hinit) as (_ & Ha & Hr & _).
  split; [|split].
  - unfold get_token.
    erewrite bind_eq by (apply access_token_valid_None; exact Ha).
    cbv beta iota. mstep. rewrite Hr. reflexivity.
  - unfold get_users_locations.
    erewrite bind_eq by (apply access_token_valid_None; exact Ha).
    reflexivity.
  - unfold init in Hinit. cbv zeta in Hinit. mstep in Hinit.
    split_run Hinit. inversion Hinit; subst. repeat split.
Qed.

(** ** The coordinator's update *)

Lemma get_data_token_raises (c : Homely) (w : World) (e : exn)
    (c1 : Homely) (w1 : World) :
  _location_id c <> None ->
  get_token c w = (Raised e, c1, w1) ->
  get_data None c w = (Raised e, c1, w1).
Proof.
  intros Hid Htok. unfold get_data.
  erewrite bind_eq
    by (apply get_location_data_token_raises; [right; exact Hid|exact Htok]).
  reflexivity.
Qed.

(** X12: [_async_update_data] turns into [UpdateFailed] the errors of the
    module only.  On a client with a configured location and no token, a login
    refused with a status of 400 and above ends the update in [UpdateFailed]
    around the [LoginError] or [ResponseError]; a login answered with another
    status than 200 and 201 ends it in the bare [UnboundLocalError], and a 200
    or 201 whose body does not parse in the bare [JSONDecodeError]. *)
Theorem update_wraps_module_errors_only (c : Homely) (w : World)
    (s : Z) (body : option value) :
  _access_token c = VNone ->
  _refresh_token c = VNone ->
  _location_id c <> None ->
  server w (List.length (sent w)) = Response s body ->
  let w' := log (login_request c) w in
  (500 <= s ->
   _async_update_data c w = (UpdateFailed (ResponseError s), c, w'))
  /\ (400 <= s < 500 ->
      _async_update_data c w
        = (UpdateFailed (LoginError "Invalid credentials"), c, w'))
  /\ (s < 400 -> in_200_201 s = false ->
      _async_update_data c w
        = (Uncaught (UnboundLocalError "resp_data"), c, w'))
  /\ (in_200_201 s = true -> body = None ->
      _async_update_data c w = (Uncaught JSONDecodeError, c, w')).
Proof.
  intros Ha Hr Hid Hs w'.
  assert (Htok : get_token c w = get_token_login c w).
  { unfold get_token.
    erewrite bind_eq by (apply access_token_valid_None; exact Ha).
    cbv beta iota. mstep. rewrite Hr. reflexivity. }
  assert (Hup : forall e,
    get_token_login c w = (Raised e, c, w') ->
    _async_update_data c w
      = ((if is_HomelyError e then UpdateFailed e else Uncaught e), c, w')).
  { intros e He. unfold _async_update_data.
    rewrite (get_data_token_raises c w e c w' Hid); [reflexivity|].
    rewrite Htok. exact He. }
  repeat split.
  - intros H500. rewrite (Hup (ResponseError s)); [reflexivity|].
    rewrite get_token_login_eq, Hs.
    destruct (Z.leb_spec 500 s); [reflexivity|lia].
  - intros [H400 H500].
    rewrite (Hup (LoginError "Invalid credentials")); [reflexivity|].
    rewrite get_token_login_eq, Hs.
    destruct (Z.leb_spec 500 s); [lia|].
    destruct (Z.leb_spec 400 s); [reflexivity|lia].
  - intros Hlt H2xx.
    rewrite (Hup (UnboundLocalError "resp_data")); [reflexivity|].
    rewrite get_token_login_eq, Hs.
    destruct (Z.leb_spec 500 s); [lia|].
    destruct (Z.leb_spec 400 s); [lia|].
    rewrite H2xx. reflexivity.
  - intros H2xx Hbody. subst body.
    rewrite (Hup JSONDecodeError); [reflexivity|].
    rewrite get_token_login_eq, Hs.
    assert (Hst : (500 <=? s) = false /\ (400 <=? s) = false).
    { unfold in_200_201 in H2xx. apply orb_prop in H2xx.
      destruct H2xx as [E|E]; apply Z.eqb_eq in E; subst s; split;
        reflexivity. }
    destruct Hst as [-> ->]. rewrite H2xx. reflexivity.
Qed.


(** ** The exceptions of the client *)

Lemma dict_get_raises (d : value) (k : string) (v : value) (e : exn) :
  dict_get d k v = Raised e -> e = AttributeError.
Proof.
  unfold dict_get. destruct d; try (intros H; inversion H; reflexivity).
  destruct (lookup k d); intros H; inversion H.
Qed.

Lemma raises_only_weaken {A} (P Q : exn -> Prop) (m : M A) :
  (forall e, P e -> Q e) -> raises_only P m -> raises_only Q m.
Proof. intros HPQ Hm c w e c' w' H. apply HPQ. eapply Hm. exact H. Qed.

Lemma module_failure_incl (msgs msgs' : list string) (e : exn) :
  incl msgs msgs' -> module_failure msgs e -> module_failure msgs' e.
Proof. intros Hincl. destruct e; cbn [module_failure]; auto. Qed.

Lemma module_failure_request (msgs : list string)
    (u : string) (d : req_data) (rt : string) :
  rt = "GET" \/ rt = "POST" ->
  raises_only (module_failure msgs) (_request u d rt).
Proof.
  intros Hrt c w e c' w' H. rewrite request_eq in H by exact Hrt.
  destruct (server w (List.length (sent w))); inversion H; exact I.
Qed.

Ltac one_of_the_list :=
  cbn [module_failure TOKEN_LOGIN_ERRORS LOCATION_LOGIN_ERRORS
       LOCATIONS_LOGIN_ERRORS In];
  solve [ repeat first [ exact I | reflexivity | left; reflexivity | right ] ].

Ltac module_failure_pure He :=
  first
    [ apply subscript_raises in He; destruct He as [-> | ->]
    | apply py_int_raises in He; destruct He as [-> | [-> | ->]]
    | apply add_seconds_raises in He; subst
    | apply json_loads_raises in He; subst
    | apply read_local_raises in He; subst
    | apply dict_get_raises in He; subst
    | inversion He; subst ];
  exact I.

Ltac module_failure_step :=
  first
    [ apply raises_only_bind; [ | intros ? ]
    | apply raises_only_ret
    | apply raises_only_attr
    | apply raises_only_assign
    | apply raises_only_now
    | apply raises_only_raise;
      first [ one_of_the_list
            | cbn [module_failure];
              match goal with
              | H : (500 <=? _) = true |- _ => apply Z.leb_le in H; exact H
              end ]
    | apply module_failure_request; first [ left; reflexivity
                                          | right; reflexivity ]
    | apply raises_only_lift; intros ? He; module_failure_pure He
    | match goal with
      | |- raises_only _ (if ?b then _ else _) => destruct b eqn:?
      | |- raises_only _ (match ?x with _ => _ end) => destruct x eqn:?
      end ].

Lemma module_failure_token_expired (msgs : list string) (e : Z) :
  raises_only (module_failure msgs) (_token_expired e).
Proof. unfold _token_expired. repeat module_failure_step. Qed.

Lemma module_failure_access_token_valid (msgs : list string) :
  raises_only (module_failure msgs) _access_token_valid.
Proof.
  unfold _access_token_valid.
  repeat first [ apply module_failure_token_expired | module_failure_step ].
Qed.

Lemma module_failure_install_tokens (msgs : list string)
    (d : outcome value) :
  (forall e, d = Raised e -> e = UnboundLocalError "resp_data") ->
  raises_only (module_failure msgs) (install_tokens d).
Proof.
  intros Hd. unfold install_tokens.
  repeat first
    [ apply raises_only_lift; intros ? He; apply Hd in He; subst; exact I
    | module_failure_step ].
Qed.

Lemma module_failure_refresh_access_token :
  raises_only (module_failure TOKEN_LOGIN_ERRORS) _refresh_access_token.
Proof.
  unfold _refresh_access_token.
  repeat first
    [ apply module_failure_token_expired
    | apply module_failure_install_tokens; intros ? He; discriminate He
    | module_failure_step ].
Qed.

Lemma module_failure_get_token_login :
  raises_only (module_failure TOKEN_LOGIN_ERRORS) get_token_login.
Proof.
  unfold get_token_login.
  repeat first
    [ apply module_failure_install_tokens; apply read_local_raises
    | module_failure_step ].
Qed.

Lemma module_failure_get_token :
  raises_only (module_failure TOKEN_LOGIN_ERRORS) get_token.
Proof.
  unfold get_token.
  repeat first
    [ apply module_failure_access_token_valid
    | apply module_failure_token_expired
    | apply module_failure_refresh_access_token
    | apply module_failure_get_token_login
    | module_failure_step ].
Qed.

Lemma module_failure_get_location_data (location_id : option string) :
  raises_only (module_failure LOCATION_LOGIN_ERRORS)
    (_get_location_data location_id).
Proof.
  unfold _get_location_data.
  repeat first
    [ apply (raises_only_weaken (module_failure TOKEN_LOGIN_ERRORS));
      [ intros ?; apply module_failure_incl; apply incl_tl; apply incl_refl
      | apply module_failure_get_token ]
    | module_failure_step ].
Qed.

Lemma module_failure_get_data (location_id : option string) :
  raises_only (module_failure LOCATION_LOGIN_ERRORS) (get_data location_id).
Proof.
  unfold get_data.
  repeat first [ apply module_failure_get_location_data | module_failure_step ].
Qed.

(** X21: the exceptions of the module that the client raises.  Whatever the
    state of the client, the clock and the answers of the server, an
    exception of a class of the module that leaves [get_token],
    [get_users_locations], [get_data], [get_system_state] or [get_devices] is
    a [ResponseError] with a status of 500 and above, a [LoginError] with one
    of the messages of that call, or the [TokenExpiredError] of the refresh.
    It is never [InvalidArgument], every request being a GET or a POST, never
    [RequestFailed], which [_request] raises from a class that is no
    exception, and never [NoAuth].  Built-in exceptions are not spoken of. *)
Theorem client_exceptions_classified :
  raises_only (module_failure TOKEN_LOGIN_ERRORS) get_token
  /\ raises_only (module_failure LOCATIONS_LOGIN_ERRORS) get_users_locations
  /\ (forall location_id : option string,
        raises_only (module_failure LOCATION_LOGIN_ERRORS)
          (get_data location_id)
        /\ raises_only (module_failure LOCATION_LOGIN_ERRORS)
             (get_system_state location_id)
        /\ raises_only (module_failure LOCATION_LOGIN_ERRORS)
             (get_devices location_id)).
Proof.
  split; [exact module_failure_get_token|split].
  - unfold get_users_locations.
    repeat first
      [ apply module_failure_access_token_valid | module_failure_step ].
  - intros location_id.
    split; [apply module_failure_get_data|].
    unfold get_system_state, get_devices.
    split;
      repeat first
        [ apply module_failure_get_location_data | module_failure_step ].
Qed.

(** X22: what [UpdateFailed] can wrap.  When [_async_update_data] ends in
    [UpdateFailed], the error wrapped is a [ResponseError] with a status of
    500 and above, a [LoginError] with one of the four messages of the token
    step and of the fetch, or the [TokenExpiredError] of the refresh; it is
    never a [RequestFailed]. *)
Theorem update_failed_causes (c : Homely) (w : World) (e : exn)
    (c' : Homely) (w' : World) :
  _async_update_data c w = (UpdateFailed e, c', w') ->
  (exists s, e = ResponseError s /\ 500 <= s)
  \/ (exists msg, e = LoginError msg /\ In msg LOCATION_LOGIN_ERRORS)
  \/ e = TokenExpiredError "No valid refresh-token".
Proof.
  intros H. unfold _async_update_data in H.
  destruct (get_data None c w) as [[[d|e0] c1] w1] eqn:E; [discriminate H|].
  assert (Hcause : module_failure LOCATION_LOGIN_ERRORS e0)
    by (eapply module_failure_get_data; exact E).
  destruct (is_HomelyError e0) eqn:Eh; inversion H; subst.
  destruct e; cbn [is_HomelyError module_failure] in *;
    try discriminate Eh; try contradiction.
  - left. eauto.
  - right; right. congruence.
  - right; left. eauto.
Qed.

(** ** The configured location and the location passed *)

Lemma ignores_ret {A} (a : A) : ignores_location_id (ret a).
Proof. intros l c w. reflexivity. Qed.

Lemma ignores_raise {A} (e : exn) : ignores_location_id (@raise A e).
Proof. intros l c w. reflexivity. Qed.

Lemma ignores_lift {A} (o : outcome A) : ignores_location_id (lift o).
Proof. intros l c w. reflexivity. Qed.

Lemma ignores_now : ignores_location_id now.
Proof. intros l c w. reflexivity. Qed.

Lemma ignores_attr {A} (f : Homely -> A) :
  (forall l c, f (with_location_id l c) = f c) ->
  ignores_location_id (attr f).
Proof. intros Hf l c w. unfold attr. rewrite Hf. reflexivity. Qed.

Lemma ignores_assign (f : Homely -> Homely) :
  (forall l c, f (with_location_id l c) = with_location_id l (f c)) ->
  ignores_location_id (assign f).
Proof. intros Hf l c w. unfold assign. rewrite Hf. reflexivity. Qed.

Lemma ignores_request (u : string) (d : req_data) (rt : string) :
  ignores_location_id (_request u d rt).
Proof.
  intros l c w. unfold _request.
  destruct ((rt =? "GET")%string || (rt =? "POST")%string);
    [|reflexivity].
  destruct (server w (List.length (sent w))); reflexivity.
Qed.

Lemma ignores_bind {A B} (m : M A) (k : A -> M B) :
  ignores_location_id m -> (forall a, ignores_location_id (k a)) ->
  ignores_location_id (bind m k).
Proof.
  intros Hm Hk l c w. unfold bind. rewrite Hm.
  destruct (m c w) as [[[a|e] c1] w1]; [apply Hk|reflexivity].
Qed.

Ltac ignores_step :=
  first
    [ apply ignores_bind; [ | intros ? ]
    | apply ignores_ret
    | apply ignores_raise
    | apply ignores_lift
    | apply ignores_now
    | apply ignores_attr; intros; reflexivity
    | apply ignores_assign; intros; reflexivity
    | apply ignores_request
    | match goal with
      | |- ignores_location_id (if ?b then _ else _) => destruct b
      | |- ignores_location_id (match ?x with _ => _ end) => destruct x
      end ].

Lemma ignores_get_token : ignores_location_id get_token.
Proof.
  unfold get_token, get_token_login, _refresh_access_token, install_tokens,
    _access_token_valid, _token_expired.
  repeat ignores_step.
Qed.

Lemma get_location_data_configured (l : string) (c : Homely) (w : World) :
  _get_location_data None (with_location_id (Some l) c) w
  = match _get_location_data (Some l) c w with
    | (o, c', w') => (o, with_location_id (Some l) c', w')
    end.
Proof.
  unfold _get_location_data.
  erewrite bind_eq by reflexivity. cbv beta iota.
  erewrite (bind_eq (attr _location_id) _ c) by reflexivity. cbv beta iota.
  cbn [with_location_id _location_id].
  fold (with_location_id (Some l) c).
  destruct (get_token c w) as [[o c1] w1] eqn:Htok.
  assert (Htok' : get_token (with_location_id (Some l) c) w
                  = (o, with_location_id (Some l) c1, w1))
    by (rewrite ignores_get_token, Htok; reflexivity).
  erewrite (bind_eq get_token _ (with_location_id (Some l) c))
    by exact Htok'.
  destruct (_location_id c);
    erewrite (bind_eq get_token _ c) by exact Htok;
    (destruct o as [b|e]; [|reflexivity]);
    erewrite (bind_eq (attr _location_id)) by reflexivity;
    erewrite (bind_eq (ret (Some l))) by reflexivity;
    cbv beta iota; cbn [with_location_id _location_id];
    match goal with
    | |- ?m (with_location_id ?l c1) w1 = _ =>
        assert (Hm : ignores_location_id m) by (repeat ignores_step)
    end;
  apply Hm.
Qed.

(** X23: [get_data(location_id)] does what [set_location_id(location_id)]
    followed by [get_data()] does, on every client and whatever the clock and
    the server do: the same requests, the same result or exception, and the
    same client but for the configured location, which only the second
    changes. *)
Theorem get_data_for_a_location_is_configure_then_get
    (l : string) (c : Homely) (w : World) :
  (set_location_id (Some l) ;; get_data None) c w
  = match get_data (Some l) c w with
    | (o, c', w') => (o, with_location_id (Some l) c', w')
    end.
Proof.
  unfold bind at 1. unfold set_location_id.
  fold (with_location_id (Some l) c).
  unfold get_data. unfold bind.
  rewrite get_location_data_configured.
  destruct (_get_location_data (Some l) c w) as [[[b|e] c1] w1];
    reflexivity.
Qed.
End Client.

(** ** Worked runs *)

Lemma readings_all (P : Z -> Prop) (first : list Z) (last : Z) :
  Forall P first -> P last -> forall k : nat, P (readings first last k).
Proof.
  intros Hfirst Hlast k. unfold readings.
  destruct (nth_in_or_default k first last) as [Hin | ->]; [|exact Hlast].
  rewrite Forall_forall in Hfirst. apply Hfirst. exact Hin.
Qed.

(** *** C6 on a logged-in client *)

Lemma get_token_valid_no_network_witness :
  get_token int_of_decimal (logged_in_client 0) (still_world ClientError)
    = (Returned true, logged_in_client 0, tick (still_world ClientError))
  /\ sent (tick (still_world ClientError)) = sent (still_world ClientError).
Proof.
  apply (get_token_valid_no_network int_of_decimal (logged_in_client 0)
           (still_world ClientError)).
  - simpl. discriminate.
  - simpl. lia.
Defined.

(** *** C7 on a logged-out client *)

Lemma get_users_locations_requires_token_witness :
  exists w',
    get_users_locations logged_out_client (still_world ClientError)
      = (Raised (LoginError "No valid access token"), logged_out_client, w')
    /\ sent w' = sent (still_world ClientError).
Proof.
  apply (get_users_locations_requires_token logged_out_client
           (still_world ClientError)).
  left. reflexivity.
Defined.

(** *** C4: a login answered 202 *)

Lemma login_unlisted_status_unbound_witness :
  get_token_login int_of_decimal logged_out_client
    (still_world (Response 202 None))
    = (Raised (UnboundLocalError "resp_data"), logged_out_client,
       log (login_request logged_out_client) (still_world (Response 202 None)))
  /\ (_access_token logged_out_client = VNone ->
      _refresh_token logged_out_client = VNone ->
      get_token int_of_decimal logged_out_client
        (still_world (Response 202 None))
        = (Raised (UnboundLocalError "resp_data"), logged_out_client,
           log (login_request logged_out_client)
             (still_world (Response 202 None)))).
Proof.
  apply (login_unlisted_status_unbound int_of_decimal logged_out_client
           (still_world (Response 202 None)) 202 None).
  - reflexivity.
  - lia.
  - reflexivity.
Defined.

(** A login answered 202 does not always fall through to a return: on the
    logged-out client [get_token] ends in an exception. *)
Lemma login_unlisted_status_does_not_return :
  ~ (forall (int_of_str : string -> option Z) (c : Homely) (w : World)
       (body : option value),
       server w (List.length (sent w)) = Response 202 body ->
       _access_token c = VNone ->
       _refresh_token c = VNone ->
       exists (v : bool) (c' : Homely) (w' : World),
         get_token int_of_str c w = (Returned v, c', w')).
Proof.
  intros H.
  destruct (H int_of_decimal logged_out_client
              (still_world (Response 202 None)) None
              eq_refl eq_refl eq_refl) as (v & c' & w' & E).
  vm_compute in E. discriminate E.
Qed.

(** *** C3: a fetch answered 400 *)

Lemma location_data_400_keeps_cache_witness :
  _get_location_data int_of_decimal None (logged_in_client 0)
    (still_world (Response 400 None))
    = (Raised (LoginError "Invalid location ID"), logged_in_client 0,
       log (location_request (logged_in_client 0) None)
         (tick (tick (still_world (Response 400 None)))))
  /\ _location_data (logged_in_client 0) = _location_data (logged_in_client 0)
  /\ _data_refreshed (logged_in_client 0)
     = _data_refreshed (logged_in_client 0).
Proof.
  apply (location_data_400_keeps_cache int_of_decimal None
           (logged_in_client 0) (still_world (Response 400 None))
           true (logged_in_client 0) (tick (still_world (Response 400 None)))
           10000000 None).
  - right. simpl. discriminate.
  - reflexivity.
  - reflexivity.
  - simpl. lia.
  - reflexivity.
Defined.

(** The claim as the specification words it: the error raised on a 400 is an
    [InvalidArgument].  It is a [LoginError]. *)
Lemma location_data_400_is_not_InvalidArgument :
  ~ (forall (int_of_str : string -> option Z) (location_id : option string)
       (c : Homely) (w : World) (b : bool) (c1 : Homely) (w1 : World)
       (next_refresh : Z) (body : option value),
       location_id <> None \/ _location_id c <> None ->
       get_token int_of_str c w = (Returned b, c1, w1) ->
       add_seconds (_data_refreshed c1) REFRESH_LIMIT = Returned next_refresh ->
       next_refresh <= clock w1 (ticks w1) ->
       server w1 (List.length (sent w1)) = Response 400 body ->
       exists (msg : string) (w' : World),
         _get_location_data int_of_str location_id c w
           = (Raised (InvalidArgument msg), c1, w')
         /\ _location_data c1 = _location_data c
         /\ _data_refreshed c1 = _data_refreshed c).
Proof.
  intros H.
  destruct (H int_of_decimal None
              (logged_in_client 0) (still_world (Response 400 None))
              true (logged_in_client 0) (tick (still_world (Response 400 None)))
              10000000 None)
    as (msg & w' & E & _).
  - right. simpl. discriminate.
  - reflexivity.
  - reflexivity.
  - simpl. lia.
  - reflexivity.
  - vm_compute in E. discriminate E.
Qed.

(** *** C1: a refresh answered 400 *)

Lemma refresh_rejection_propagates_witness :
  let c := refreshable_client 3000000000000 in
  let after w := log (refresh_request c) (tick (tick w)) in
  let rejected := still_world (Response 400 None) in
  let down := still_world (Response 503 None) in
  let unreachable := still_world TimeoutError in
  let odd := still_world (Response 202 None) in
  let good := still_world token_answer in
  let refreshed := _refresh_access_token int_of_decimal c (tick good) in
  let hollow := still_world (Response 200 (Some null_token_document)) in
  let emptied := _refresh_access_token int_of_decimal c (tick hollow) in
  get_token int_of_decimal c rejected
    = (Raised (LoginError "Invalid refresh token"), c, after rejected)
  /\ get_token int_of_decimal c down
     = (Raised (ResponseError 503), c, after down)
  /\ get_token int_of_decimal c unreachable
     = (Raised TypeError, c, after unreachable)
  /\ get_token int_of_decimal c odd
     = get_token_login int_of_decimal c (after odd)
  /\ get_token int_of_decimal c good
     = (Returned true, snd (fst refreshed), tick (snd refreshed))
  /\ get_token int_of_decimal c hollow
     = get_token_login int_of_decimal (snd (fst emptied)) (snd emptied).
Proof.
  intros c after rejected down unreachable odd good refreshed hollow emptied.
  assert (Hc : _refresh_token c <> VNone) by (simpl; discriminate).
  assert (Hexp : forall w k, clock (still_world w) k <= _refresh_token_expire c)
    by (intros; simpl; lia).
  split; [|split; [|split; [|split; [|split]]]].
  - destruct (refresh_rejection_propagates int_of_decimal c rejected rejected
                eq_refl Hc (Hexp _ _)) as (_ & _ & H).
    destruct (H (Hexp _ _)) as (_ & Hs & _).
    destruct (Hs 400 None eq_refl) as (H400 & _).
    exact (H400 eq_refl).
  - destruct (refresh_rejection_propagates int_of_decimal c down down
                eq_refl Hc (Hexp _ _)) as (_ & _ & H).
    destruct (H (Hexp _ _)) as (_ & Hs & _).
    destruct (Hs 503 None eq_refl) as (_ & _ & H500 & _).
    apply H500. lia.
  - destruct (refresh_rejection_propagates int_of_decimal c unreachable
                unreachable eq_refl Hc (Hexp _ _)) as (_ & _ & H).
    destruct (H (Hexp _ _)) as (_ & _ & Hs).
    apply Hs. right. reflexivity.
  - destruct (refresh_rejection_propagates int_of_decimal c odd odd
                eq_refl Hc (Hexp _ _)) as (_ & H & _).
    exact (H false c (after odd) false (after odd) eq_refl eq_refl).
  - destruct (refresh_rejection_propagates int_of_decimal c good good
                eq_refl Hc (Hexp _ _)) as (_ & H & _).
    apply (H true (snd (fst refreshed)) (snd refreshed) true
             (tick (snd refreshed))).
    + vm_compute. reflexivity.
    + vm_compute. reflexivity.
  - destruct (refresh_rejection_propagates int_of_decimal c hollow hollow
                eq_refl Hc (Hexp _ _)) as (_ & H & _).
    apply (H true (snd (fst emptied)) (snd emptied) false (snd emptied)).
    + vm_compute. reflexivity.
    + vm_compute. reflexivity.
Defined.

(** The claim as the specification words it: after a refresh answered 400
    the call goes on to the full login.  No login request is made. *)
Lemma refresh_rejection_no_fallback :
  ~ (forall (int_of_str : string -> option Z) (c : Homely) (w w1 : World)
       (body : option value),
       _access_token_valid c w = (Returned false, c, w1) ->
       _refresh_token c <> VNone ->
       clock w1 (ticks w1) <= _refresh_token_expire c ->
       clock w1 (S (ticks w1)) <= _refresh_token_expire c ->
       server w1 (List.length (sent w1)) = Response 400 body ->
       exists (o : outcome bool) (c' : Homely) (w' : World),
         get_token int_of_str c w = (o, c', w')
         /\ o <> Raised (LoginError "Invalid refresh token")
         /\ In (login_request c) (sent w')).
Proof.
  intros H.
  destruct (H int_of_decimal (refreshable_client 3000000000000)
              (still_world (Response 400 None))
              (still_world (Response 400 None)) None)
    as (o & c' & w' & E & Ho & _).
  - reflexivity.
  - simpl. discriminate.
  - simpl. lia.
  - simpl. lia.
  - reflexivity.
  - vm_compute in E. apply Ho. injection E as <- _ _. reflexivity.
Qed.

(** *** C10: the expiry of the refresh token between two readings *)

Lemma token_expired_error_needs_clock_step_witness :
  let c := refreshable_client 1000000000001 in
  let w := scripted_world microsecond_steps [] in
  get_token int_of_decimal c w
    = (Raised (TokenExpiredError "No valid refresh-token"), c,
       mkWorld (clock w) 2 (server w) (sent w))
  /\ 1000000000001 <= _refresh_token_expire c < 1000000000002.
Proof.
  intros c w.
  destruct (token_expired_error_needs_clock_step int_of_decimal c w)
    as [Hraise Hinv].
  assert (E : get_token int_of_decimal c w
              = (Raised (TokenExpiredError "No valid refresh-token"), c,
                 mkWorld (clock w) 2 (server w) (sent w))).
  { apply Hraise. split; [|split; [|split]].
    - left. reflexivity.
    - cbv. discriminate.
    - cbv. discriminate.
    - reflexivity. }
  split; [exact E|].
  destruct (Hinv _ _ _ E) as (_ & _ & Hle & Hlt).
  split; [exact Hle|exact Hlt].
Defined.

(** The claim as the specification words it: through [get_token] the
    [TokenExpiredError] cannot be raised.  It is raised when the refresh token
    expires between the two readings. *)
Lemma token_expired_error_reachable :
  ~ (forall (int_of_str : string -> option Z) (c : Homely) (w : World)
       (msg : string) (c' : Homely) (w' : World),
       get_token int_of_str c w <> (Raised (TokenExpiredError msg), c', w')).
Proof.
  intros H.
  apply (H int_of_decimal (refreshable_client 1000000000001)
           (scripted_world microsecond_steps [])
           "No valid refresh-token"
           (refreshable_client 1000000000001)
           (tick (tick (scripted_world microsecond_steps [])))).
  reflexivity.
Qed.

(** *** C5: the expiry after a login *)

Lemma expiry_after_login_or_refresh_witness :
  let logged_in := snd (fst (login_run int_of_decimal)) in
  let refreshed := snd (fst (refresh_run int_of_decimal)) in
  (_access_token_expire logged_in = 1000000000001 + 3580 * US_PER_SECOND
   /\ valid_until logged_in)
  /\ _access_token_expire refreshed = 1000000000001 + 3579 * US_PER_SECOND.
Proof.
  intros logged_in refreshed. split.
  - destruct (expiry_after_login_or_refresh int_of_decimal false
                logged_out_client (still_world token_answer)
                logged_in (snd (login_run int_of_decimal)))
      as (s & d & _ & _ & Hvalid & _).
    + vm_compute. reflexivity.
    + split; [reflexivity|]. apply Hvalid. cbv. discriminate.
  - destruct (expiry_after_login_or_refresh int_of_decimal true
                (refreshable_client 3000000000000)
                (still_world (Response 200 (Some float_token_document)))
                refreshed (snd (refresh_run int_of_decimal)))
      as (s & d & Hs & _ & _ & _ & Hfloat).
    + vm_compute. reflexivity.
    + injection Hs as <- <-.
      destruct (Hfloat (S754_finite false 7199 (-1)) eq_refl)
        as (n & (a & Hn & _ & _ & Ha) & Hexp).
      rewrite Hexp. cbn [clock ticks still_world].
      unfold TOKEN_EXPIRE_MARGIN, US_PER_SECOND.
      assert (H2 : 2 ^ (- (-1)) = 2) by reflexivity.
      rewrite H2 in Ha. lia.
Defined.

(** The claim as the specification words it: after every login that returns
    [True] the token is valid one millisecond before the stored expiry.  A
    login answered 200 with [null] for [access_token] returns [True] and
    stores the expiry, and the token is not valid then. *)
Lemma login_with_null_token_is_never_valid :
  ~ (forall (int_of_str : string -> option Z) (c : Homely) (w : World)
       (c' : Homely) (w' : World),
       get_token_login int_of_str c w = (Returned true, c', w') ->
       valid_until c').
Proof.
  intros H.
  pose (r := get_token_login int_of_decimal logged_out_client
               (still_world (Response 200 (Some null_token_document)))).
  assert (Hrun : r = (Returned true, snd (fst r), snd r))
    by (vm_compute; reflexivity).
  destruct (H int_of_decimal _ _ _ _ Hrun
              (mkWorld (fun _ => 1003579999001) 0 (fun _ => ClientError) []))
    as [Hbefore _].
  assert (E : _access_token_valid (snd (fst r))
                (mkWorld (fun _ => 1003579999001) 0 (fun _ => ClientError) [])
              = (Returned false, snd (fst r),
                 mkWorld (fun _ => 1003579999001) 0 (fun _ => ClientError) []))
    by reflexivity.
  rewrite Hbefore in E by reflexivity. discriminate E.
Qed.

(** *** C2: two calls inside the window *)

Lemma get_data_twice_within_throttle_witness :
  exists (c1 : Homely) (w1 w2 : World),
    get_data int_of_decimal None (logged_in_client 0)
      (still_world snapshot_answer)
      = (Returned snapshot_example, c1, w1)
    /\ get_data int_of_decimal (Some "loc1") c1 w1
       = (Returned snapshot_example, c1, w2)
    /\ sent w2
       = sent (still_world snapshot_answer)
           ++ [location_request (logged_in_client 0) None].
Proof.
  apply (get_data_twice_within_throttle int_of_decimal None (Some "loc1")
           (logged_in_client 0) (still_world snapshot_answer)
           200 snapshot_example 10000000 1000010000001).
  - right. simpl. discriminate.
  - left. discriminate.
  - simpl. discriminate.
  - simpl. lia.
  - reflexivity.
  - simpl. lia.
  - reflexivity.
  - reflexivity.
  - simpl. lia.
  - reflexivity.
  - simpl. lia.
Defined.

(** The claim as the specification words it: two calls inside the window
    make one request between them, and the second makes none.  Here they make
    three, one of them in the second call. *)
Lemma get_data_twice_more_than_one_request :
  ~ (forall (int_of_str : string -> option Z) (location_id : option string)
       (c : Homely) (w : World) (d1 : value) (c1 : Homely) (w1 : World),
       get_data int_of_str location_id c w = (Returned d1, c1, w1) ->
       _data_refreshed c1 <> _data_refreshed c ->
       (forall k : nat, (ticks w1 <= k)%nat ->
          clock w1 k < _data_refreshed c1 + REFRESH_LIMIT * US_PER_SECOND) ->
       exists (c2 : Homely) (w2 : World),
         get_data int_of_str location_id c1 w1 = (Returned d1, c2, w2)
         /\ sent w2 = sent w1
         /\ List.length (sent w2) = S (List.length (sent w))).
Proof.
  intros H.
  destruct (H int_of_decimal None fresh_client short_token_world
              snapshot_example (snd (fst (first_call int_of_decimal)))
              (snd (first_call int_of_decimal)))
    as (c2 & w2 & E & Hsame & Hone).
  - vm_compute. reflexivity.
  - vm_compute. discriminate.
  - intros k _.
    change (ten_seconds k < 1000003000000 + REFRESH_LIMIT * US_PER_SECOND).
    apply (readings_all
             (fun t => t < 1000003000000 + REFRESH_LIMIT * US_PER_SECOND)).
    + repeat constructor.
    + reflexivity.
  - vm_compute in E. injection E as _ Hw2. subst w2.
    vm_compute in Hone. discriminate Hone.
Qed.

(** *** C9: a caller that passes its location *)

Lemma token_step_precedes_throttle_witness :
  let c := logged_out_client in
  let w := still_world (Response 401 None) in
  let raised := (Raised (LoginError "Invalid credentials"), c,
                 log (login_request c) w) in
  get_data int_of_decimal (Some "loc1") c w = raised
  /\ get_system_state int_of_decimal (Some "loc1") c w = raised
  /\ get_devices int_of_decimal (Some "loc1") c w = raised.
Proof.
  intros c w raised.
  refine (proj1 (token_step_precedes_throttle int_of_decimal (Some "loc1")
                   c w _) _ _ _ _).
  - left. discriminate.
  - reflexivity.
Defined.

(** *** C8: a client from its construction on *)

Lemma cache_hit_serves_installed_snapshot_witness :
  let w0 := still_world token_answer in
  let cw := run int_of_decimal [CallGetData None]
              (built_client w0) (snd (built w0)) in
  (forall location_id o c' w',
     _get_location_data int_of_decimal location_id (fst cw) (snd cw)
       = (o, c', w') ->
     cache_step (fst cw) (snd cw) o c' w')
  /\ (forall location_id b c1 wt next_refresh,
       location_id <> None \/ _location_id (fst cw) <> None ->
       get_token int_of_decimal (fst cw) (snd cw) = (Returned b, c1, wt) ->
       add_seconds (_data_refreshed c1) REFRESH_LIMIT = Returned next_refresh ->
       clock wt (ticks wt) < next_refresh ->
       get_data int_of_decimal location_id (fst cw) (snd cw)
         = (Returned (_location_data (fst cw)), c1, tick wt)
       /\ _location_data (fst cw) <> VNone).
Proof.
  intros w0 cw.
  apply (cache_hit_serves_installed_snapshot int_of_decimal
           "user" "secret" (Some "loc1") w0
           (built_client w0) (snd (built w0)) [CallGetData None]
           (fst cw) (snd cw)).
  - vm_compute. reflexivity.
  - intros k s _. cbn. discriminate.
  - intros k _. vm_compute. discriminate.
  - vm_compute. reflexivity.
Defined.

(** The claim as it is worded: a call answered from the cache never returns
    an absent snapshot.  It does after a 200 whose body is [null], and it does
    on a client that has never fetched when the clock reads more than 60
    seconds earlier than at construction; each of the two conditions of the
    amended statement fails to be enough without the other. *)
Lemma cache_hit_can_serve_None :
  ~ (forall (int_of_str : string -> option Z)
       (username password : string) (configured : option string)
       (w0 : World) (c0 : Homely) (w1 : World) (calls : list call)
       (c : Homely) (w : World) (location_id : option string)
       (d : value) (c' : Homely) (w' : World),
       init username password configured w0 = (Returned c0, w1) ->
       (forall k : nat, (ticks w1 <= k)%nat ->
          _data_refreshed c0 + REFRESH_LIMIT * US_PER_SECOND <= clock w0 k) ->
       run int_of_str calls c0 w1 = (c, w) ->
       get_data int_of_str location_id c w = (Returned d, c', w') ->
       sent w' = sent w ->
       d <> VNone)
  /\ ~ (forall (int_of_str : string -> option Z)
          (username password : string) (configured : option string)
          (w0 : World) (c0 : Homely) (w1 : World) (calls : list call)
          (c : Homely) (w : World) (location_id : option string)
          (d : value) (c' : Homely) (w' : World),
          init username password configured w0 = (Returned c0, w1) ->
          no_null_body w0 ->
          run int_of_str calls c0 w1 = (c, w) ->
          get_data int_of_str location_id c w = (Returned d, c', w') ->
          sent w' = sent w ->
          d <> VNone).
Proof.
  split; intros H.
  - set (w0 := null_body_world).
    set (cw := run int_of_decimal [CallGetData None]
                 (built_client w0) (snd (built w0))).
    set (r := get_data int_of_decimal None (fst cw) (snd cw)).
    apply (H int_of_decimal "user" "secret" (Some "loc1") w0
             (built_client w0) (snd (built w0)) [CallGetData None]
             (fst cw) (snd cw) None VNone (snd (fst r)) (snd r)).
    + vm_compute. reflexivity.
    + intros k _. vm_compute. discriminate.
    + vm_compute. reflexivity.
    + vm_compute. reflexivity.
    + vm_compute. reflexivity.
    + reflexivity.
  - set (w0 := clock_back_world).
    set (cw := run int_of_decimal [CallGetToken]
                 (built_client w0) (snd (built w0))).
    set (r := get_data int_of_decimal None (fst cw) (snd cw)).
    apply (H int_of_decimal "user" "secret" (Some "loc1") w0
             (built_client w0) (snd (built w0)) [CallGetToken]
             (fst cw) (snd cw) None VNone (snd (fst r)) (snd r)).
    + vm_compute. reflexivity.
    + intros k s _. cbn. discriminate.
    + vm_compute. reflexivity.
    + vm_compute. reflexivity.
    + vm_compute. reflexivity.
    + reflexivity.
Qed.

(** ** Coordinator: looking up a device *)

Lemma py_eq_str (v : value) (s : string) :
  py_eq v (VStr s) = true <-> v = VStr s.
Proof.
  destruct v; cbn; split; intros H; try discriminate H.
  - apply String.eqb_eq in H. subst. reflexivity.
  - inversion H. apply String.eqb_refl.
Qed.

Lemma get_device_data_loop_spec (device_id : value) (l : list value) :
  forall r : value,
    get_device_data_loop l device_id = Returned r ->
    (r = VNone /\ Forall (id_differs device_id) l)
    \/ (exists pre post,
          l = pre ++ r :: post
          /\ id_matches device_id r
          /\ Forall (id_differs device_id) pre).
Proof.
  induction l as [|device rest IH]; intros r H.
  - inversion H. left. split; [reflexivity|constructor].
  - cbn [get_device_data_loop] in H. unfold and_then in H.
    destruct (dict_get device "id" VNone) as [v|e] eqn:Ev; [|discriminate H].
    destruct (py_eq v device_id) eqn:Eq.
    + inversion H; subst r. right. exists [], rest.
      split; [reflexivity|]. split; [|constructor].
      exists v. split; assumption.
    + assert (Hd : id_differs device_id device)
        by (exists v; split; assumption).
      destruct (IH r H) as [[-> Hall]|(pre & post & -> & Hm & Hall)].
      * left. split; [reflexivity|]. constructor; assumption.
      * right. exists (device :: pre), post.
        split; [reflexivity|]. split; [exact Hm|].
        constructor; assumption.
Qed.

(** X13: when [get_device_data] returns, it returns the first device, in the
    order of [data["devices"]], whose [get("id")] equals the id asked for,
    every device before it having another id; and it returns [None] only when
    it has gone through all the devices without a match. *)
Theorem get_device_data_returns_first_match (data device_id r : value) :
  get_device_data data device_id = Returned r ->
  exists (devices : value) (l : list value),
    subscript data "devices" = Returned devices
    /\ iter_values devices = Returned l
    /\ ((r = VNone /\ Forall (id_differs device_id) l)
        \/ (exists pre post,
              l = pre ++ r :: post
              /\ id_matches device_id r
              /\ Forall (id_differs device_id) pre)).
Proof.
  intros H. unfold get_device_data, and_then in H.
  destruct (subscript data "devices") as [devices|e] eqn:Ed; [|discriminate H].
  destruct (iter_values devices) as [l|e] eqn:El; [|discriminate H].
  exists devices, l.
  split; [first [assumption | reflexivity]|].
  split; [first [assumption | reflexivity]|].
  apply get_device_data_loop_spec. exact H.
Qed.

Lemma id_of_Some (device : value) (s : string) :
  id_of device = Some s ->
  dict_get device "id" VNone = Returned (VStr s)
  /\ subscript device "id" = Returned (VStr s).
Proof.
  unfold id_of, dict_get, subscript. destruct device; try discriminate.
  destruct (lookup "id" d) as [[ | | | | t | | ]|]; try discriminate.
  intros H. inversion H. split; reflexivity.
Qed.

Lemma get_device_data_loop_own (device : value) (s : string) (l : list value) :
  Forall (fun d => id_of d <> None) l ->
  NoDup (map id_of l) ->
  In device l ->
  id_of device = Some s ->
  get_device_data_loop l (VStr s) = Returned device.
Proof.
  intros Hall Hnodup Hin Hid.
  induction l as [|x rest IH]; [destruct Hin|].
  inversion Hall as [|? ? Hx Hrest]; subst.
  inversion Hnodup as [|? ? Hnotin Hnodup']; subst.
  destruct (id_of x) as [t|] eqn:Ex; [|congruence].
  destruct (id_of_Some x t Ex) as [Hget _].
  cbn [get_device_data_loop]. unfold and_then. rewrite Hget.
  cbn [py_eq].
  destruct Hin as [-> | Hin].
  - assert (t = s) by congruence. subst t.
    rewrite String.eqb_refl. reflexivity.
  - destruct (String.eqb_spec t s) as [-> | Hne].
    + exfalso. apply Hnotin. rewrite <- Hid. apply in_map. exact Hin.
    + apply IH; assumption.
Qed.

(** X14: in a snapshot whose devices are dicts with string ids, no id
    occurring twice, every device is what [get_device_data] returns for its
    own id. *)
Theorem get_device_data_finds_own_device (data device : value)
    (l : list value) (s : string) :
  subscript data "devices" = Returned (VList l) ->
  Forall (fun d => id_of d <> None) l ->
  NoDup (map id_of l) ->
  In device l ->
  id_of device = Some s ->
  get_device_data data (VStr s) = Returned device.
Proof.
  intros Hd Hall Hnodup Hin Hid.
  unfold get_device_data, and_then. rewrite Hd. cbn [iter_values].
  apply get_device_data_loop_own; assumption.
Qed.

(** ** Sensors *)

Lemma existsb_eqb_In (x : string) (l : list string) :
  existsb (String.eqb x) l = true <-> In x l.
Proof.
  rewrite existsb_exists. split.
  - intros (y & Hin & E). apply String.eqb_eq in E. subst. exact Hin.
  - intros Hin. exists x. split; [exact Hin|apply String.eqb_refl].
Qed.

Lemma fromkeys_acc_In (x : string) (l : list string) :
  forall acc : list string,
    In x (fold_left
            (fun acc y => if existsb (String.eqb y) acc then acc else acc ++ [y])
            l acc)
    <-> In x acc \/ In x l.
Proof.
  induction l as [|y l IH]; intros acc; cbn [fold_left].
  - split; [intros H; left; exact H|intros [H|[]]; exact H].
  - rewrite IH. destruct (existsb (String.eqb y) acc) eqn:E.
    + apply existsb_eqb_In in E. split.
      * intros [H|H]; [left; exact H|right; right; exact H].
      * intros [H|[->|H]]; [left; exact H|left; exact E|right; exact H].
    + rewrite in_app_iff. cbn [In]. tauto.
Qed.

Lemma fromkeys_acc_NoDup (l : list string) :
  forall acc : list string,
    NoDup acc ->
    NoDup (fold_left
             (fun acc y => if existsb (String.eqb y) acc then acc else acc ++ [y])
             l acc).
Proof.
  induction l as [|y l IH]; intros acc Hacc; cbn [fold_left]; [exact Hacc|].
  apply IH. destruct (existsb (String.eqb y) acc) eqn:E; [exact Hacc|].
  assert (Hnot : ~ In y acc).
  { intros Hin. apply existsb_eqb_In in Hin. congruence. }
  clear IH E. induction acc as [|a acc IHacc]; cbn [app].
  - constructor; [intros []|constructor].
  - inversion Hacc as [|? ? Ha Hacc']; subst. constructor.
    + rewrite in_app_iff. cbn [In]. intros [H|[H|[]]]; [exact (Ha H)|].
      apply Hnot. left. symmetry. exact H.
    + apply IHacc; [exact Hacc'|]. intros H. apply Hnot. right. exact H.
Qed.

Lemma table_get_In (d : list (string * string)) (key v : value) :
  table_get d key = Returned v ->
  v = VNone \/ exists s, v = VStr s /\ In s (map snd d).
Proof.
  unfold table_get. destruct key; intros H; try discriminate H;
    try (inversion H; left; reflexivity).
  destruct (find (fun kv => String.eqb (fst kv) s) d) as [kv|] eqn:E;
    inversion H; [right|left; reflexivity].
  exists (snd kv). split; [reflexivity|].
  apply find_some in E. apply in_map. apply E.
Qed.

Lemma table_get_missing (d : list (string * string)) (s : string) :
  ~ In s (map fst d) -> table_get d (VStr s) = Returned VNone.
Proof.
  intros Hnot. unfold table_get.
  destruct (find (fun kv => String.eqb (fst kv) s) d) as [kv|] eqn:E;
    [|reflexivity].
  exfalso. apply find_some in E. destruct E as [Hin Heq].
  apply String.eqb_eq in Heq. apply Hnot. rewrite <- Heq.
  apply in_map. exact Hin.
Qed.

(** X15: what the alarm sensor shows is [None] or one of its options, and
    the options hold no state twice.  A snapshot without [alarmState] shows
    ["state_unknown"]; a snapshot whose [alarmState] is a string that is not a
    key of the table shows [None]; a snapshot that is not a dict raises
    [AttributeError]. *)
Theorem alarm_state_value_is_an_option (data : value) :
  (forall v,
     Sensor.HomelyAlarmState.native_value data = Returned v ->
     v = VNone
     \/ exists s, v = VStr s /\ In s Sensor.HomelyAlarmState._attr_options)
  /\ NoDup Sensor.HomelyAlarmState._attr_options
  /\ (forall kv,
        data = VDict kv -> lookup "alarmState" kv = None ->
        Sensor.HomelyAlarmState.native_value data
          = Returned (VStr Sensor.STATE_UNKNOWN))
  /\ (forall kv s,
        data = VDict kv -> lookup "alarmState" kv = Some (VStr s) ->
        ~ In s (map fst Sensor.HomelyAlarmState._alarm_states) ->
        Sensor.HomelyAlarmState.native_value data = Returned VNone)
  /\ ((forall kv, data <> VDict kv) ->
      Sensor.HomelyAlarmState.native_value data = Raised AttributeError).
Proof.
  split; [|split; [|split; [|split]]].
  2:{ unfold Sensor.HomelyAlarmState._attr_options, fromkeys.
      apply fromkeys_acc_NoDup. constructor. }
  - intros v H. unfold Sensor.HomelyAlarmState.native_value, and_then in H.
    destruct (dict_get data "alarmState" (VStr "UNKNOWN")) as [state|e];
      [|discriminate H].
    apply table_get_In in H. destruct H as [H|(s & -> & Hin)]; [left; exact H|].
    right. exists s. split; [reflexivity|].
    unfold Sensor.HomelyAlarmState._attr_options, fromkeys.
    rewrite fromkeys_acc_In. right. exact Hin.
  - intros kv -> Hnone.
    unfold Sensor.HomelyAlarmState.native_value, and_then, dict_get.
    rewrite Hnone. reflexivity.
  - intros kv s -> Hsome Hnot.
    unfold Sensor.HomelyAlarmState.native_value, and_then, dict_get.
    rewrite Hsome. apply table_get_missing. exact Hnot.
  - intros Hnot.
    unfold Sensor.HomelyAlarmState.native_value, and_then, dict_get.
    destruct data; try reflexivity. exfalso. exact (Hnot d eq_refl).
Qed.

(** X16: a device sensor whose device is no longer in the snapshot does not
    become unavailable: [native_value] raises [TypeError] and [available]
    raises [AttributeError], both with [None] stored as the device, unless
    [super().available] is false, in which case [available] is [False].  When
    the coordinator has no data at all, [available] raises [TypeError] whatever
    [super().available] is. *)
Theorem device_sensor_of_missing_device (self : Sensor.device_sensor)
    (data : value) :
  get_device_data data (Sensor._device_id self) = Returned VNone ->
  let gone := Sensor.mkDeviceSensor VNone (Sensor._device_id self) in
  Sensor.HomelyThermometer.native_value self data = (Raised TypeError, gone)
  /\ Sensor.HomelyThermometer.available self true data
     = (Raised AttributeError, gone)
  /\ Sensor.HomelyBattery.available self true data
     = (Raised AttributeError, gone)
  /\ Sensor.HomelyThermometer.available self false data
     = (Returned (VBool false), gone)
  /\ (forall b, Sensor.HomelyBattery.available self b VNone
                = (Raised TypeError, self)).
Proof.
  intros H gone.
  unfold Sensor.HomelyThermometer.native_value,
    Sensor.HomelyThermometer.available, Sensor.HomelyBattery.available,
    Sensor.device_sensor_available.
  rewrite H. repeat split.
Qed.

(** X17: in a snapshot whose devices are dicts with string ids, no id
    occurring twice, a thermometer built from a device of the snapshot reads
    the temperature of that very device, and [available] reads its [online]
    flag, [False] when it has none. *)
Theorem thermometer_reads_its_device (data device : value)
    (l : list value) (self : Sensor.device_sensor) :
  subscript data "devices" = Returned (VList l) ->
  Forall (fun d => id_of d <> None) l ->
  NoDup (map id_of l) ->
  In device l ->
  Sensor.device_sensor_init device = Returned self ->
  Sensor.HomelyThermometer.native_value self data
    = (Sensor.HomelyThermometer.temperature_of device, self)
  /\ Sensor.HomelyThermometer.available self true data
     = (dict_get device "online" (VBool false), self).
Proof.
  intros Hd Hall Hnodup Hin Hinit.
  assert (Hsome : id_of device <> None)
    by (rewrite Forall_forall in Hall; apply Hall; exact Hin).
  destruct (id_of device) as [s|] eqn:Hid; [|congruence].
  destruct (id_of_Some device s Hid) as [_ Hsub].
  unfold Sensor.device_sensor_init, and_then in Hinit.
  rewrite Hsub in Hinit. inversion Hinit; subst self.
  unfold Sensor.HomelyThermometer.native_value,
    Sensor.HomelyThermometer.available, Sensor.device_sensor_available.
  cbn [Sensor._device_id].
  assert (Hfound : get_device_data data (VStr s) = Returned device).
  { unfold get_device_data, and_then. rewrite Hd. cbn [iter_values].
    apply get_device_data_loop_own; assumption. }
  rewrite Hfound. split; reflexivity.
Qed.

Lemma sensors_of_devices_raises (e : exn) (bad : value)
    (pre post : list value) :
  Forall (fun d => exists es, Sensor.sensors_of_device d = Returned es) pre ->
  Sensor.sensors_of_device bad = Raised e ->
  Sensor.sensors_of_devices (pre ++ bad :: post) = Raised e.
Proof.
  intros Hpre Hbad. induction pre as [|d pre IH]; cbn [app].
  - cbn [Sensor.sensors_of_devices]. unfold and_then. rewrite Hbad.
    reflexivity.
  - inversion Hpre as [|? ? (es & Hd) Hpre']; subst.
    cbn [Sensor.sensors_of_devices]. unfold and_then at 1. rewrite Hd.
    unfold and_then at 1. rewrite (IH Hpre'). reflexivity.
Qed.

(** X18: the setup of the sensors is all or nothing.  When one device of the
    snapshot is a dict without ["features"] and the devices before it raise
    nothing, [async_setup_entry] raises [KeyError("features")] and hands over
    no entity, not even the alarm sensor and the sensors of the devices
    before. *)
Theorem setup_is_all_or_nothing (data : value) (pre post : list value)
    (kv : list (string * value)) :
  subscript data "devices" = Returned (VList (pre ++ VDict kv :: post)) ->
  Forall (fun d => exists es, Sensor.sensors_of_device d = Returned es) pre ->
  lookup "features" kv = None ->
  Sensor.async_setup_entry data = Raised (KeyError "features").
Proof.
  intros Hd Hpre Hnone.
  unfold Sensor.async_setup_entry, and_then. rewrite Hd. cbn [iter_values].
  rewrite (sensors_of_devices_raises (KeyError "features") (VDict kv) pre post);
    [reflexivity|exact Hpre|].
  unfold Sensor.sensors_of_device, and_then, subscript. rewrite Hnone.
  reflexivity.
Qed.

Lemma sensors_of_well_formed_device (device : value) :
  well_formed_device device ->
  exists id,
    subscript device "id" = Returned id
    /\ Sensor.sensors_of_device device
       = Returned
           ((if has_feature "temperature" device
             then [Sensor.Thermometer (Sensor.mkDeviceSensor device id)]
             else [])
            ++ (if has_feature "battery" device
                then [Sensor.Battery (Sensor.mkDeviceSensor device id)]
                else [])).
Proof.
  intros (kv & id & features & -> & Hid & Hf). exists id.
  unfold Sensor.sensors_of_device, Sensor.device_sensor_init, and_then,
    subscript, py_in, has_feature.
  rewrite Hid, Hf. split; [reflexivity|].
  destruct (lookup "temperature" features);
    destruct (lookup "battery" features); reflexivity.
Qed.

Lemma sensor_of_cons (d : value) (l : list value) (e : Sensor.entity) :
  sensor_of l e -> sensor_of (d :: l) e.
Proof.
  destruct e; cbn [sensor_of]; [tauto| |];
    intros [Hin Hid]; (split; [right; exact Hin|exact Hid]).
Qed.

Lemma sensors_of_well_formed_devices (l : list value) :
  Forall well_formed_device l ->
  exists sensors,
    Sensor.sensors_of_devices l = Returned sensors
    /\ thermometer_devices sensors = filter (has_feature "temperature") l
    /\ battery_devices sensors = filter (has_feature "battery") l
    /\ Forall (sensor_of l) sensors.
Proof.
  induction l as [|d l IH]; intros Hall.
  - exists []. repeat split. constructor.
  - inversion Hall as [|? ? Hd Hl]; subst.
    destruct (IH Hl) as (there & Hthere & Hth & Hba & Hof).
    destruct (sensors_of_well_formed_device d Hd) as (id & Hid & Hhere).
    eexists. cbn [Sensor.sensors_of_devices]. unfold and_then.
    rewrite Hhere, Hthere. split; [reflexivity|].
    unfold thermometer_devices, battery_devices in *.
    rewrite !flat_map_app, Hth, Hba. cbn [filter].
    split; [|split].
    + destruct (has_feature "temperature" d);
        destruct (has_feature "battery" d); reflexivity.
    + destruct (has_feature "temperature" d);
        destruct (has_feature "battery" d); reflexivity.
    + apply Forall_app. split.
      * apply Forall_app. split.
        -- destruct (has_feature "temperature" d); constructor;
             [|constructor].
           cbn [sensor_of Sensor._device_data Sensor._device_id].
           split; [left; reflexivity|exact Hid].
        -- destruct (has_feature "battery" d); constructor; [|constructor].
           cbn [sensor_of Sensor._device_data Sensor._device_id].
           split; [left; reflexivity|exact Hid].
      * eapply Forall_impl; [|exact Hof]. intros e. apply sensor_of_cons.
Qed.

(** X19: on a snapshot whose devices are all dicts with an ["id"] and a dict
    of features, [async_setup_entry] hands over the alarm sensor first and
    then sensors of devices only: the thermometers hold, in the order of the
    snapshot, exactly the devices with the feature ["temperature"], one
    thermometer each, the battery sensors hold exactly the devices with the
    feature ["battery"], one each, and every sensor holds the id of its
    device. *)
Theorem setup_gives_one_sensor_per_feature (data : value) (l : list value) :
  subscript data "devices" = Returned (VList l) ->
  Forall well_formed_device l ->
  exists sensors,
    Sensor.async_setup_entry data = Returned (Sensor.AlarmState :: sensors)
    /\ thermometer_devices sensors = filter (has_feature "temperature") l
    /\ battery_devices sensors = filter (has_feature "battery") l
    /\ Forall (sensor_of l) sensors.
Proof.
  intros Hd Hall.
  destruct (sensors_of_well_formed_devices l Hall)
    as (sensors & Hs & Hth & Hba & Hof).
  exists sensors. split; [|split; [|split]; assumption].
  unfold Sensor.async_setup_entry, and_then. rewrite Hd. cbn [iter_values].
  rewrite Hs. reflexivity.
Qed.

(** ** Worked runs of the further statements *)

Lemma login_without_expiry_stores_token_witness :
  let reply := Response 200 (Some (VDict [("access_token", VStr "a2")])) in
  get_token_login int_of_decimal (logged_in_client 0) (still_world reply)
    = (Raised (KeyError "expires_in"),
       set_access_token (VStr "a2") (logged_in_client 0),
       tick (log (login_request (logged_in_client 0)) (still_world reply))).
Proof.
  intros reply.
  apply (login_without_expiry_stores_token int_of_decimal
           (logged_in_client 0) (still_world reply) 200
           (VDict [("access_token", VStr "a2")]) (VStr "a2")
           (KeyError "expires_in")); reflexivity.
Defined.

Lemma refresh_expiry_after_login_or_refresh_witness :
  exists (s : Z) (d : value),
    server (still_world token_answer) 0%nat = Response s (Some d)
    /\ refresh_installed int_of_decimal 1000000000001 d
         (snd (fst (login_run int_of_decimal)))
    /\ sent (snd (login_run int_of_decimal))
       = sent (still_world token_answer) ++ [login_request logged_out_client].
Proof.
  apply (refresh_expiry_after_login_or_refresh int_of_decimal false
           logged_out_client (still_world token_answer)
           (snd (fst (login_run int_of_decimal)))
           (snd (login_run int_of_decimal))).
  vm_compute. reflexivity.
Defined.

Lemma no_location_id_raises_first_witness :
  let c := unconfigured_client in
  let w := still_world snapshot_answer in
  let raised := (Raised (LoginError "Invalid location ID"), c, w) in
  get_data int_of_decimal None c w = raised
  /\ get_system_state int_of_decimal None c w = raised
  /\ get_devices int_of_decimal None c w = raised.
Proof.
  intros c w raised.
  apply (no_location_id_raises_first int_of_decimal c w). reflexivity.
Defined.

Lemma fetch_failure_keeps_cache_witness :
  let c := logged_in_client 0 in
  let w := still_world (Response 503 None) in
  let w' := log (location_request c None) (tick (tick w)) in
  _location_data c = _location_data c
  /\ _data_refreshed c = _data_refreshed c
  /\ (forall s body,
       server (tick w) (List.length (sent (tick w))) = Response s body ->
       (500 <= s ->
        _get_location_data int_of_decimal None c w
          = (Raised (ResponseError s), c, w'))
       /\ (401 <= s < 500 ->
           _get_location_data int_of_decimal None c w
             = (Raised (LoginError "Unauthorized"), c, w')))
  /\ (server (tick w) (List.length (sent (tick w))) = ClientError
      \/ server (tick w) (List.length (sent (tick w))) = TimeoutError ->
      _get_location_data int_of_decimal None c w = (Raised TypeError, c, w'))
  /\ sent w' = sent (tick w) ++ [location_request c None].
Proof.
  intros c w w'.
  apply (fetch_failure_keeps_cache int_of_decimal None c w true c (tick w)
           10000000).
  - right. simpl. discriminate.
  - reflexivity.
  - reflexivity.
  - simpl. lia.
Defined.

Lemma fetch_unlisted_status_serves_old_snapshot_witness :
  let c := logged_in_client 0 in
  let w := still_world (Response 204 None) in
  let w' := log (location_request c None) (tick (tick w)) in
  _get_location_data int_of_decimal None c w = (Returned false, c, w')
  /\ _data_refreshed c = _data_refreshed c
  /\ get_data int_of_decimal None c w = (Returned (_location_data c), c, w')
  /\ (_location_data c = VNone ->
      get_system_state int_of_decimal None c w = (Raised AttributeError, c, w')
      /\ get_devices int_of_decimal None c w = (Raised AttributeError, c, w')).
Proof.
  intros c w w'.
  apply (fetch_unlisted_status_serves_old_snapshot int_of_decimal None c w
           true c (tick w) 10000000 204 None).
  - right. simpl. discriminate.
  - reflexivity.
  - reflexivity.
  - simpl. lia.
  - reflexivity.
  - lia.
  - reflexivity.
Defined.

Lemma throttle_decides_the_fetch_witness :
  let c := logged_in_client 0 in
  let w := still_world snapshot_answer in
  let after := snd (_get_location_data int_of_decimal (Some "loc2") c w) in
  10000000 = _data_refreshed c + REFRESH_LIMIT * US_PER_SECOND
  /\ (clock (tick w) (ticks (tick w)) < 10000000 -> sent after = sent (tick w))
  /\ (10000000 <= clock (tick w) (ticks (tick w)) ->
      sent after
      = sent (tick w)
          ++ [mkRequest (URL_LOCATION_DATA ++ "loc2")%string
                (Bearer (_access_token c)) "GET"]).
Proof.
  intros c w after.
  apply (throttle_decides_the_fetch int_of_decimal (Some "loc2") c w
           true c (tick w) 10000000).
  - left. discriminate.
  - reflexivity.
  - reflexivity.
Defined.

Lemma fetched_document_is_served_witness :
  let c := logged_in_client 0 in
  let w := still_world (Response 200 (Some (VDict []))) in
  let c' := set_data_refreshed 1000000000001 (set_location_data (VDict []) c) in
  let w' := tick (log (location_request c None) (tick (tick w))) in
  get_data int_of_decimal None c w = (Returned (VDict []), c', w')
  /\ get_system_state int_of_decimal None c w
     = (Returned (VStr "UNKNOWN"), c', w')
  /\ get_devices int_of_decimal None c w = (Returned (VList []), c', w').
Proof.
  intros c w c' w'.
  apply (fetched_document_is_served int_of_decimal None c w true c (tick w)
           10000000 200 (VDict [])).
  - right. simpl. discriminate.
  - reflexivity.
  - reflexivity.
  - simpl. lia.
  - reflexivity.
  - reflexivity.
Defined.

Lemma get_users_locations_outcomes_witness :
  let c := logged_in_client 0 in
  let w := still_world (Response 200 (Some (VList []))) in
  let w' := log (locations_request c) (tick w) in
  (500 <= 200 -> get_users_locations c w = (Raised (ResponseError 200), c, w'))
  /\ (400 <= 200 < 500 ->
      get_users_locations c w = (Raised (LoginError "Unauthorized"), c, w'))
  /\ (in_200_201 200 = true ->
      get_users_locations c w
      = (Returned (VList []), set_locations (VList []) c, w'))
  /\ (200 < 400 -> in_200_201 200 = false ->
      get_users_locations c w
        = (Raised (UnboundLocalError "resp_data"), c, w')).
Proof.
  intros c w w'.
  apply (get_users_locations_outcomes c w 200 (Some (VList []))).
  - simpl. discriminate.
  - simpl. lia.
  - reflexivity.
Defined.

Lemma constructed_client_must_login_witness :
  let w0 := still_world token_answer in
  let c0 := built_client w0 in
  get_token int_of_decimal c0 w0 = get_token_login int_of_decimal c0 w0
  /\ get_users_locations c0 w0
     = (Raised (LoginError "No valid access token"), c0, w0)
  /\ _username c0 = "user"
  /\ _password c0 = "secret"
  /\ _location_id c0 = Some "loc1".
Proof.
  intros w0 c0.
  apply (constructed_client_must_login int_of_decimal "user" "secret"
           (Some "loc1") w0 c0 (snd (built w0)) w0).
  vm_compute. reflexivity.
Defined.

Lemma update_wraps_module_errors_only_witness :
  let c := logged_out_client in
  let w := still_world (Response 202 None) in
  let w' := log (login_request c) w in
  (500 <= 202 ->
   _async_update_data int_of_decimal c w
     = (UpdateFailed (ResponseError 202), c, w'))
  /\ (400 <= 202 < 500 ->
      _async_update_data int_of_decimal c w
        = (UpdateFailed (LoginError "Invalid credentials"), c, w'))
  /\ (202 < 400 -> in_200_201 202 = false ->
      _async_update_data int_of_decimal c w
        = (Uncaught (UnboundLocalError "resp_data"), c, w'))
  /\ (in_200_201 202 = true -> @None value = None ->
      _async_update_data int_of_decimal c w = (Uncaught JSONDecodeError, c, w')).
Proof.
  intros c w w'.
  apply (update_wraps_module_errors_only int_of_decimal c w 202 None).
  - reflexivity.
  - reflexivity.
  - simpl. discriminate.
  - reflexivity.
Defined.

Lemma get_device_data_returns_first_match_witness :
  exists (devices : value) (l : list value),
    subscript two_devices "devices" = Returned devices
    /\ iter_values devices = Returned l
    /\ ((plain_device = VNone /\ Forall (id_differs (VStr "d2")) l)
        \/ (exists pre post,
              l = pre ++ plain_device :: post
              /\ id_matches (VStr "d2") plain_device
              /\ Forall (id_differs (VStr "d2")) pre)).
Proof.
  apply (get_device_data_returns_first_match two_devices (VStr "d2")
           plain_device).
  reflexivity.
Defined.

Lemma two_devices_distinct :
  Forall (fun d => id_of d <> None) [thermometer_device; plain_device]
  /\ NoDup (map id_of [thermometer_device; plain_device]).
Proof.
  split.
  - repeat constructor; discriminate.
  - repeat constructor; cbn; intros H;
      repeat (destruct H as [H|H]; [discriminate H|]); exact H.
Qed.

Lemma get_device_data_finds_own_device_witness :
  get_device_data two_devices (VStr "d2") = Returned plain_device.
Proof.
  apply (get_device_data_finds_own_device two_devices plain_device
           [thermometer_device; plain_device] "d2").
  - reflexivity.
  - apply two_devices_distinct.
  - apply two_devices_distinct.
  - right. left. reflexivity.
  - reflexivity.
Defined.

Lemma device_sensor_of_missing_device_witness :
  let self := Sensor.mkDeviceSensor plain_device (VStr "d9") in
  let gone := Sensor.mkDeviceSensor VNone (VStr "d9") in
  Sensor.HomelyThermometer.native_value self two_devices
    = (Raised TypeError, gone)
  /\ Sensor.HomelyThermometer.available self true two_devices
     = (Raised AttributeError, gone)
  /\ Sensor.HomelyBattery.available self true two_devices
     = (Raised AttributeError, gone)
  /\ Sensor.HomelyThermometer.available self false two_devices
     = (Returned (VBool false), gone)
  /\ (forall b, Sensor.HomelyBattery.available self b VNone
                = (Raised TypeError, self)).
Proof.
  intros self gone.
  apply (device_sensor_of_missing_device self two_devices). reflexivity.
Defined.

Lemma thermometer_reads_its_device_witness :
  let self := Sensor.mkDeviceSensor thermometer_device (VStr "d1") in
  Sensor.HomelyThermometer.native_value self two_devices
    = (Sensor.HomelyThermometer.temperature_of thermometer_device, self)
  /\ Sensor.HomelyThermometer.available self true two_devices
     = (dict_get thermometer_device "online" (VBool false), self).
Proof.
  intros self.
  apply (thermometer_reads_its_device two_devices thermometer_device
           [thermometer_device; plain_device] self).
  - reflexivity.
  - apply two_devices_distinct.
  - apply two_devices_distinct.
  - left. reflexivity.
  - reflexivity.
Defined.

Lemma setup_is_all_or_nothing_witness :
  Sensor.async_setup_entry
    (VDict [("devices",
             VList [thermometer_device; VDict [("id", VStr "d3")];
                    plain_device])])
  = Raised (KeyError "features").
Proof.
  apply (setup_is_all_or_nothing
           (VDict [("devices",
                    VList [thermometer_device; VDict [("id", VStr "d3")];
                           plain_device])])
           [thermometer_device] [plain_device] [("id", VStr "d3")]).
  - reflexivity.
  - constructor; [|constructor]. eexists. reflexivity.
  - reflexivity.
Defined.

Lemma setup_gives_one_sensor_per_feature_witness :
  exists sensors,
    Sensor.async_setup_entry two_devices
      = Returned (Sensor.AlarmState :: sensors)
    /\ thermometer_devices sensors = [thermometer_device]
    /\ battery_devices sensors = [thermometer_device]
    /\ Forall (sensor_of [thermometer_device; plain_device]) sensors.
Proof.
  apply (setup_gives_one_sensor_per_feature two_devices
           [thermometer_device; plain_device]).
  - reflexivity.
  - constructor; [|constructor; [|constructor]].
    + do 3 eexists. repeat split; reflexivity.
    + do 3 eexists. repeat split; reflexivity.
Defined.

Lemma refresh_success_skips_login_witness :
  let c := refreshable_client 3000000000000 in
  let w := still_world token_answer in
  let r := _refresh_access_token int_of_decimal c (tick w) in
  get_token int_of_decimal c w = (Returned true, snd (fst r), tick (snd r))
  /\ sent (tick (snd r)) = sent w ++ [refresh_request c].
Proof.
  intros c w r.
  apply (refresh_success_skips_login int_of_decimal c w w (snd (fst r)) (snd r)).
  - reflexivity.
  - simpl. discriminate.
  - simpl. lia.
  - vm_compute. reflexivity.
  - vm_compute. discriminate.
  - vm_compute. discriminate.
Defined.

Lemma update_failed_causes_witness :
  let c := logged_out_client in
  let w := still_world (Response 503 None) in
  let e := ResponseError 503 in
  _async_update_data int_of_decimal c w
    = (UpdateFailed e, c, log (login_request c) w)
  /\ ((exists s, e = ResponseError s /\ 500 <= s)
      \/ (exists msg, e = LoginError msg /\ In msg LOCATION_LOGIN_ERRORS)
      \/ e = TokenExpiredError "No valid refresh-token").
Proof.
  intros c w e. split; [reflexivity|].
  apply (update_failed_causes int_of_decimal c w e c
           (log (login_request c) w)).
  reflexivity.
Defined.
